(** * srttools: parsing and delaying SRT subtitle files

    A shallow embedding of [srttools.py] (Timestamp, Subtitle,
    [parse_srt_file], [delay_subtitles], [write_srt_file] and the run of
    the [delay] subcommand) and the properties of its specification.

    Modelling conventions.
    - A Python [str] is a list of characters; a character is one of the 256
      code points below U+0100 (Rocq's [ascii]), and Python's character
      predicates ([str.isspace], [str.isdigit], decimal digits) are the
      Unicode ones restricted to that range.
    - A Python [int] is a [Z]; a conversion between [int] and [str] of
      more than 4300 digits raises ValueError, as CPython does by default.
    - A raised exception is the [Raise] case of [result]; [print] appends a
      line to an output log.
    - A text stream is the list of the lines its iteration yields. *)

From Stdlib Require Import ZArith Ascii String List Bool Lia.
From Stdlib Require Import Numbers.DecimalString.
From Stdlib Require Numbers.DecimalPos.
Import ListNotations.

Local Open Scope Z_scope.

(** ** Strings and characters *)

Definition str := list ascii.

(** A string literal. *)
Definition lit (s : string) : str := list_ascii_of_string s.

(** Python's [ord]. *)
Definition ord (c : ascii) : Z := Z.of_N (N_of_ascii c).

Definition between (lo hi x : Z) : bool := (lo <=? x) && (x <=? hi).

(** [str.isspace] on one character: U+0009..U+000D, U+001C..U+0020, U+0085
    and U+00A0. *)
Definition isspace (c : ascii) : bool :=
  between 9 13 (ord c) || between 28 32 (ord c)
  || (ord c =? 133) || (ord c =? 160).

(** Decimal digits (category Nd): ['0'..'9']. *)
Definition isdecimal_char (c : ascii) : bool := between 48 57 (ord c).

(** [str.isdigit] on one character: the decimal digits and the superscript
    digits U+00B2, U+00B3, U+00B9. *)
Definition isdigit_char (c : ascii) : bool :=
  isdecimal_char c || (ord c =? 178) || (ord c =? 179) || (ord c =? 185).

(** [s.isdigit()]: at least one character, all of them digits. *)
Definition isdigit (s : str) : bool :=
  match s with
  | [] => false
  | _ => forallb isdigit_char s
  end.

Fixpoint lstrip (s : str) : str :=
  match s with
  | c :: s' => if isspace c then lstrip s' else s
  | [] => []
  end.

Definition rstrip (s : str) : str := rev (lstrip (rev s)).

(** [s.strip()] *)
Definition strip (s : str) : str := rstrip (lstrip s).

Fixpoint startswith (p s : str) : bool :=
  match p, s with
  | [], _ => true
  | a :: p', b :: s' => Ascii.eqb a b && startswith p' s'
  | _ :: _, [] => false
  end.

(** [s.split(sep)] for a non-empty [sep]: the pieces between the
    occurrences of [sep], found from the left and not overlapping.
    [skip] counts the characters of an occurrence still to be passed over,
    [cur] holds the current piece, reversed. *)
Fixpoint split_from (sep : str) (skip : nat) (cur : str) (s : str)
  : list str :=
  match s with
  | [] => [rev cur]
  | c :: s' =>
      match skip with
      | S k => split_from sep k cur s'
      | O =>
          if startswith sep s
          then rev cur :: split_from sep (Nat.pred (length sep)) [] s'
          else split_from sep O (c :: cur) s'
      end
  end.

Definition split (sep s : str) : list str := split_from sep O [] s.

(** [sep.join(parts)] *)
Fixpoint join (sep : str) (parts : list str) : str :=
  match parts with
  | [] => []
  | [p] => p
  | p :: ps => p ++ sep ++ join sep ps
  end.

(** The decimal digits of [n], with a minus sign when [n] is negative:
    the text of [str(n)] for an [n] of at most 4300 digits ([str_int]
    below has the ValueError of a longer [n]). *)
Definition str_of_int (n : Z) : str :=
  list_ascii_of_string (NilZero.string_of_int (Z.to_int n)).

(** [s.zfill(width)]: zeros are inserted after a leading sign. *)
Definition zfill (width : nat) (s : str) : str :=
  let pad := repeat "0"%char (width - length s) in
  match s with
  | c :: s' =>
      if Ascii.eqb c "+" || Ascii.eqb c "-" then c :: pad ++ s'
      else pad ++ s
  | [] => pad
  end.

(** ** Exceptions *)

Inductive exn :=
| ValueError (args : list str)
| RuntimeError (args : list str)
| NegativeTimestampException.

Inductive result (A : Type) :=
| Ok (a : A)
| Raise (e : exn).
Arguments Ok {A} a.
Arguments Raise {A} e.

Definition bind {A B} (m : result A) (f : A -> result B) : result B :=
  match m with
  | Ok a => f a
  | Raise e => Raise e
  end.

Notation "x <- m ;; k" := (bind m (fun x => k))
  (at level 61, m at next level, right associativity).

(** The limit of CPython on the number of digits in a conversion between
    [int] and [str] ([sys.int_info.default_max_str_digits]): a longer
    conversion raises ValueError. *)
Definition max_str_digits : Z := 4300.

(** The least absolute value that [str] refuses to print. *)
Definition str_limit : Z := 10 ^ max_str_digits.

(** The ValueError of [str(n)] for an [n] of more than 4300 digits. *)
Definition digit_limit_error : exn :=
  ValueError
    [lit "Exceeds the limit (4300 digits) for integer string conversion; use sys.set_int_max_str_digits() to increase the limit"].

Definition digit_value (c : ascii) : Z := ord c - 48.

(** The value in base ten of a string of decimal digits. *)
Definition int_digits (s : str) : Z :=
  fold_left (fun acc c => 10 * acc + digit_value c) s 0.

(** The number of decimal digits at the start of [s]. *)
Fixpoint leading_decimals (s : str) : nat :=
  match s with
  | c :: s' => if isdecimal_char c then S (leading_decimals s') else O
  | [] => O
  end.

(** The ValueError of [int(s)] for an [s] that starts with [digits]
    decimal digits, more than 4300. *)
Definition int_limit_error (digits : nat) : exn :=
  ValueError
    [lit "Exceeds the limit (4300 digits) for integer string conversion: value has";
     str_of_int (Z.of_nat digits);
     lit "digits; use sys.set_int_max_str_digits() to increase the limit"].

(** [int(s)] on the strings that reach it in this program (they passed
    [isdigit] or the digit classes of the timestamp pattern): ValueError
    when [s] starts with more than 4300 decimal digits; otherwise the
    value in base ten when every character is a decimal digit, and
    ValueError when one is not (the superscript digits, which [isdigit]
    accepts).  The arguments of the ValueErrors stand for the
    interpreter's messages. *)
Definition int_of_str (s : str) : result Z :=
  if max_str_digits <? Z.of_nat (leading_decimals s)
  then Raise (int_limit_error (leading_decimals s))
  else
    match s with
    | [] =>
        Raise (ValueError [lit "invalid literal for int() with base 10"; s])
    | _ =>
        if forallb isdecimal_char s then Ok (int_digits s)
        else
          Raise (ValueError [lit "invalid literal for int() with base 10"; s])
    end.

(** [str(n)], also as [f"{n}"] formats it: ValueError for an [n] of more
    than 4300 digits. *)
Definition str_int (n : Z) : result str :=
  if str_limit <=? Z.abs n then Raise digit_limit_error
  else Ok (str_of_int n).

(** ** Regular expressions ([re])

    The parse tree of a pattern, with the constructors of the pattern
    language that [Timestamp.from_str] uses, and a backtracking matcher
    that lists the ways to match in the order in which [re] tries them. *)

Inductive cset_item :=
| CChar (c : ascii)
| CRange (lo hi : ascii).

Inductive regex :=
| LITERAL (c : ascii)                    (* c *)
| IN (items : list cset_item)            (* [...] *)
| SEQ (r1 r2 : regex)                    (* r1r2 *)
| BRANCH (r1 r2 : regex)                 (* r1|r2 *)
| MAX_REPEAT (lo hi : nat) (r : regex)   (* r{lo,hi}, r? is r{0,1} *)
| SUBPATTERN (n : nat) (r : regex)       (* (r), group number n *)
| AT_BEGINNING                           (* ^ *)
| AT_END.                                (* $ *)

Definition in_cset (c : ascii) (items : list cset_item) : bool :=
  existsb (fun it =>
             match it with
             | CChar x => Ascii.eqb c x
             | CRange lo hi => between (ord lo) (ord hi) (ord c)
             end) items.

(** The state of a match attempt: the number of characters consumed, the
    remaining input, and the text of the groups closed so far (latest
    first). *)
Record mstate := MState {
  pos : nat;
  rest : str;
  groups : list (nat * str)
}.

Definition advance (st : mstate) (s' : str) : mstate :=
  MState (S (pos st)) s' (groups st).

Definition close_group (n : nat) (st st' : mstate) : mstate :=
  MState (pos st') (rest st')
         ((n, firstn (pos st' - pos st) (rest st)) :: groups st').

(** A greedy bounded repetition of the matcher [f]: between [lo] and [hi]
    times, the longer attempts first. *)
Fixpoint run_repeat (f : mstate -> list mstate) (lo hi : nat) (st : mstate)
  : list mstate :=
  match hi with
  | O => match lo with O => [st] | S _ => [] end
  | S hi' =>
      flat_map (run_repeat f (Nat.pred lo) hi') (f st)
      ++ match lo with O => [st] | S _ => [] end
  end.

Fixpoint run (r : regex) (st : mstate) : list mstate :=
  match r with
  | LITERAL c =>
      match rest st with
      | x :: s' => if Ascii.eqb x c then [advance st s'] else []
      | [] => []
      end
  | IN items =>
      match rest st with
      | x :: s' => if in_cset x items then [advance st s'] else []
      | [] => []
      end
  | SEQ r1 r2 => flat_map (run r2) (run r1 st)
  | BRANCH r1 r2 => run r1 st ++ run r2 st
  | MAX_REPEAT lo hi r1 => run_repeat (run r1) lo hi st
  | SUBPATTERN n r1 => map (close_group n st) (run r1 st)
  | AT_BEGINNING => if Nat.eqb (pos st) 0 then [st] else []
  | AT_END =>
      match rest st with
      | [] => [st]
      | [c] => if Ascii.eqb c "010" then [st] else []
      | _ => []
      end
  end.

(** [re.fullmatch(r, s)]: the first way to match that consumes all of
    [s]. *)
Definition fullmatch (r : regex) (s : str) : option mstate :=
  find (fun st => match rest st with [] => true | _ => false end)
       (run r (MState 0 s [])).

(** [m[n]] for a group that took part in the match. *)
Fixpoint group (n : nat) (gs : list (nat * str)) : str :=
  match gs with
  | [] => []
  | (k, s) :: gs' => if Nat.eqb k n then s else group n gs'
  end.

(** ** Timestamp *)

Record Timestamp := { millis : Z }.

(** The pattern of [Timestamp.from_str]:
    [^([01]?[0-9]|2[0-3]):([0-5]?[0-9]):([0-5]?[0-9]),([0-9]{1,3})$] *)
Definition hours_re : regex :=
  BRANCH (SEQ (MAX_REPEAT 0 1 (IN [CChar "0"; CChar "1"]))
              (IN [CRange "0" "9"]))
         (SEQ (LITERAL "2") (IN [CRange "0" "3"])).

Definition sixty_re : regex :=
  SEQ (MAX_REPEAT 0 1 (IN [CRange "0" "5"])) (IN [CRange "0" "9"]).

Definition millis_re : regex := MAX_REPEAT 1 3 (IN [CRange "0" "9"]).

Definition timestamp_re : regex :=
  SEQ AT_BEGINNING
  (SEQ (SUBPATTERN 1 hours_re)
  (SEQ (LITERAL ":")
  (SEQ (SUBPATTERN 2 sixty_re)
  (SEQ (LITERAL ":")
  (SEQ (SUBPATTERN 3 sixty_re)
  (SEQ (LITERAL ",")
  (SEQ (SUBPATTERN 4 millis_re)
       AT_END))))))).

Definition from_str (timestamp_str : str) : result Timestamp :=
  match fullmatch timestamp_re timestamp_str with
  | None =>
      Raise (ValueError [timestamp_str ++ lit " is not a valid timestamp"])
  | Some matches =>
      hours <- int_of_str (group 1 (groups matches));;
      minutes <- int_of_str (group 2 (groups matches));;
      seconds <- int_of_str (group 3 (groups matches));;
      millis <- int_of_str (group 4 (groups matches));;
      let total_millis :=
        millis + 1000 * seconds + 60 * 1000 * minutes
        + 60 * 60 * 1000 * hours in
      Ok {| millis := total_millis |}
  end.

(** The four fields of [Timestamp.__str__], from the [divmod] chain. *)
Definition hms (self : Timestamp) : Z * Z * Z * Z :=
  let hours := millis self / (60 * 60 * 1000) in
  let rest := millis self mod (60 * 60 * 1000) in
  let minutes := rest / (60 * 1000) in
  let rest := rest mod (60 * 1000) in
  let seconds := rest / 1000 in
  let millis := rest mod 1000 in
  (hours, minutes, seconds, millis).

(** [Timestamp.__str__], where it returns: the text for hours of at most
    4300 digits (for longer ones [str(hours)] raises ValueError, see
    [str_int]). *)
Definition Timestamp_str (self : Timestamp) : str :=
  let '(hours, minutes, seconds, millis) := hms self in
  zfill 2 (str_of_int hours) ++ lit ":" ++ zfill 2 (str_of_int minutes)
  ++ lit ":" ++ zfill 2 (str_of_int seconds) ++ lit ","
  ++ zfill 3 (str_of_int millis).

Definition delayed_by (self : Timestamp) (millis' : Z) (clamp_to_zero : bool)
  : result Timestamp :=
  if (millis self + millis' <? 0) && negb clamp_to_zero
  then Raise NegativeTimestampException
  else Ok {| millis := Z.max (millis self + millis') 0 |}.

(** ** Subtitle *)

Record Subtitle := {
  number : Z;
  start : Timestamp;
  end_ : Timestamp;
  text : list str
}.

(** [Subtitle.__str__], where it returns: the text for a number and for
    hours of at most 4300 digits (for longer ones the f-string raises
    ValueError, see [str_int]). *)
Definition Subtitle_str (self : Subtitle) : str :=
  let joined_text := join ([ "010"%char ]) (text self) in
  str_of_int (number self) ++ [ "010"%char ]
  ++ Timestamp_str (start self) ++ lit " --> " ++ Timestamp_str (end_ self)
  ++ [ "010"%char ] ++ joined_text ++ [ "010"%char ].

(** ** The parser *)

Inductive ParserState := NEW_SUBTITLE | TIMESTAMPS | TEXT.

(** The local variables of [parse_srt_file]; [None] is Python's [None]. *)
Module Locals.
Record t := Build {
  state : ParserState;
  subtitles : list Subtitle;
  number : option Z;
  start : option Timestamp;
  end_ : option Timestamp;
  text : list str
}.
End Locals.

Definition initial_locals : Locals.t :=
  Locals.Build NEW_SUBTITLE [] None None None [].

Definition arrow : str := lit "-->".

(** One iteration of [for line in file]. *)
Definition parse_line (v : Locals.t) (line : str) : result Locals.t :=
  let line := strip line in
  match Locals.state v with
  | NEW_SUBTITLE =>
      if Nat.eqb (length line) 0 then Ok v
      else if negb (isdigit line)
      then Raise (ValueError [lit "expected a number, got"; line])
      else
        number <- int_of_str line;;
        Ok (Locals.Build TIMESTAMPS (Locals.subtitles v) (Some number)
              (Locals.start v) (Locals.end_ v) (Locals.text v))
  | TIMESTAMPS =>
      let timestamps := split arrow line in
      if negb (Nat.eqb (length timestamps) 2)
      then Raise (ValueError
                    [lit "expected 2 timestamps separated by '-->', got";
                     line])
      else
        start <- from_str (strip (nth 0 timestamps []));;
        end_ <- from_str (strip (nth 1 timestamps []));;
        Ok (Locals.Build TEXT (Locals.subtitles v) (Locals.number v)
              (Some start) (Some end_) (Locals.text v))
  | TEXT =>
      if Nat.eqb (length line) 0 then
        if Nat.eqb (length (Locals.text v)) 0
        then Raise (ValueError
                      [lit "expected at least one line of text after timestamps"])
        else
          match Locals.number v, Locals.start v, Locals.end_ v with
          | Some number, Some start, Some end_ =>
              Ok (Locals.Build NEW_SUBTITLE
                    (Locals.subtitles v
                     ++ [Build_Subtitle number start end_ (Locals.text v)])
                    None None None [])
          | _, _, _ => Raise (RuntimeError [lit "invalid state"])
          end
      else
        Ok (Locals.Build TEXT (Locals.subtitles v) (Locals.number v)
              (Locals.start v) (Locals.end_ v) (Locals.text v ++ [line]))
  end.

(** The whole [for] loop: the first exception ends it. *)
Fixpoint parse_lines (v : Locals.t) (file : list str) : result Locals.t :=
  match file with
  | [] => Ok v
  | line :: file' => v' <- parse_line v line;; parse_lines v' file'
  end.

(** What follows the loop. *)
Definition parse_end (v : Locals.t) : result (list Subtitle) :=
  match Locals.state v with
  | TIMESTAMPS =>
      Raise (ValueError [lit "file ended in the middle of incomplete subtitle"])
  | TEXT =>
      if Nat.eqb (length (Locals.text v)) 0
      then Raise (ValueError
                    [lit "file ended in the middle of incomplete subtitle"])
      else
        match Locals.number v, Locals.start v, Locals.end_ v with
        | Some number, Some start, Some end_ =>
            Ok (Locals.subtitles v
                ++ [Build_Subtitle number start end_ (Locals.text v)])
        | _, _, _ => Raise (RuntimeError [lit "invalid state"])
        end
  | NEW_SUBTITLE => Ok (Locals.subtitles v)
  end.

Definition parse_srt_file (file : list str) : result (list Subtitle) :=
  v <- parse_lines initial_locals file;; parse_end v.

(** ** The delay transform *)

(** The line that [delay_subtitles] prints for a removed subtitle whose
    number [str] can print. *)
Definition removed_notice (sub : Subtitle) : str :=
  lit "End of subtitle " ++ str_of_int (number sub)
  ++ lit " was advanced before 00:00:00,000 so the whole subtitle was removed.".

(** The f-string of the [except] branch: formatting [sub.number] raises
    ValueError when the number has more than 4300 digits. *)
Definition format_notice (sub : Subtitle) : result str :=
  number <- str_int (number sub);;
  Ok (lit "End of subtitle " ++ number
      ++ lit " was advanced before 00:00:00,000 so the whole subtitle was removed.").

(** The loop of [delay_subtitles], with the list [rv] built so far and the
    lines printed so far; the result pairs the printed lines with the value
    returned or the exception that escaped.  An exception raised inside the
    [except] branch escapes like any other. *)
Fixpoint delay_loop (subtitles : list Subtitle) (millis : Z)
  (rv : list Subtitle) (out : list str)
  : list str * result (list Subtitle) :=
  match subtitles with
  | [] => (out, Ok rv)
  | sub :: subtitles' =>
      match (start <- delayed_by (start sub) millis true;;
             end_ <- delayed_by (end_ sub) millis false;;
             Ok (start, end_)) with
      | Ok (start, end_) =>
          delay_loop subtitles' millis
            (rv ++ [Build_Subtitle (Z.of_nat (length rv) + 1) start end_
                      (text sub)])
            out
      | Raise NegativeTimestampException =>
          match format_notice sub with
          | Ok line => delay_loop subtitles' millis rv (out ++ [line])
          | Raise e => (out, Raise e)
          end
      | Raise e => (out, Raise e)
      end
  end.

Definition delay_subtitles (subtitles : list Subtitle) (millis : Z)
  : list str * result (list Subtitle) :=
  delay_loop subtitles millis [] [].

(** ** What the specification says of the delay transform *)

(** A record survives a delay when its shifted end is not negative. *)
Definition survives (offset : Z) (sub : Subtitle) : bool :=
  0 <=? millis (end_ sub) + offset.

Definition removed (offset : Z) (sub : Subtitle) : bool :=
  millis (end_ sub) + offset <? 0.

(** The number of [sub] has at most 4300 digits if [sub] is removed, so
    that its notice can be printed. *)
Definition notice_ok (offset : Z) (sub : Subtitle) : Prop :=
  millis (end_ sub) + offset < 0 -> Z.abs (number sub) < str_limit.

(** The record put at (0-based) position [i] of the output for [sub]. *)
Definition delayed_record (offset : Z) (i : nat) (sub : Subtitle) : Subtitle :=
  {| number := Z.of_nat i + 1;
     start := {| millis := Z.max (millis (start sub) + offset) 0 |};
     end_ := {| millis := millis (end_ sub) + offset |};
     text := text sub |}.

(** The records of [subs], delayed and numbered from position [i] on. *)
Fixpoint delayed_from (offset : Z) (i : nat) (subs : list Subtitle)
  : list Subtitle :=
  match subs with
  | [] => []
  | sub :: subs' =>
      delayed_record offset i sub :: delayed_from offset (S i) subs'
  end.


(** ** The language of a pattern

    [matches r i u tl g g']: started after [i] characters, before the input
    [u ++ tl] and with the groups [g], the pattern [r] can consume exactly
    [u] and leave the groups [g']. *)

Definition glist := list (nat * str).

Fixpoint matches_repeat (D : nat -> str -> str -> glist -> glist -> Prop)
  (lo hi : nat) (i : nat) (u tl : str) (g g' : glist) : Prop :=
  match hi with
  | O => lo = O /\ u = [] /\ g' = g
  | S hi' =>
      (exists u1 u2 g1,
          u = u1 ++ u2 /\ D i u1 (u2 ++ tl) g g1
          /\ matches_repeat D (Nat.pred lo) hi' (i + length u1) u2 tl g1 g')
      \/ (lo = O /\ u = [] /\ g' = g)
  end.

Fixpoint matches (r : regex) (i : nat) (u tl : str) (g g' : glist) : Prop :=
  match r with
  | LITERAL c => u = [c] /\ g' = g
  | IN items => exists x, u = [x] /\ in_cset x items = true /\ g' = g
  | SEQ r1 r2 =>
      exists u1 u2 g1,
        u = u1 ++ u2 /\ matches r1 i u1 (u2 ++ tl) g g1
        /\ matches r2 (i + length u1) u2 tl g1 g'
  | BRANCH r1 r2 => matches r1 i u tl g g' \/ matches r2 i u tl g g'
  | MAX_REPEAT lo hi r1 => matches_repeat (matches r1) lo hi i u tl g g'
  | SUBPATTERN n r1 => exists g1, matches r1 i u tl g g1 /\ g' = (n, u) :: g1
  | AT_BEGINNING => u = [] /\ i = O /\ g' = g
  | AT_END => u = [] /\ (tl = [] \/ tl = ["010"%char]) /\ g' = g
  end.

(** The matcher state [st'] is reached from [st] by consuming a string of
    the language [D]. *)
Definition reaches (D : nat -> str -> str -> glist -> glist -> Prop)
  (st st' : mstate) : Prop :=
  exists u,
    rest st = u ++ rest st' /\ pos st' = (pos st + length u)%nat
    /\ D (pos st) u (rest st') (groups st) (groups st').

(** ** What the specification says of timestamp text *)

(** Between [lo] and [hi] characters, all decimal digits. *)
Definition digits_text (lo hi : nat) (s : str) : Prop :=
  (lo <= length s <= hi)%nat /\ forallb isdecimal_char s = true.

(** The four fields of a timestamp text: 1-2 hour digits with value 0-23,
    1-2 minute and 1-2 second digits with value 0-59, 1-3 millisecond
    digits. *)
Definition timestamp_fields (h m s ms : str) : Prop :=
  (digits_text 1 2 h /\ 0 <= int_digits h <= 23)
  /\ (digits_text 1 2 m /\ 0 <= int_digits m <= 59)
  /\ (digits_text 1 2 s /\ 0 <= int_digits s <= 59)
  /\ digits_text 1 3 ms.

(** The text [h:m:s,ms]. *)
Definition timestamp_text (h m s ms : str) : str :=
  h ++ lit ":" ++ m ++ lit ":" ++ s ++ lit "," ++ ms.

(** The strings that fully match the pattern of the specification. *)
Definition timestamp_pattern (text : str) : Prop :=
  exists h m s ms, text = timestamp_text h m s ms /\ timestamp_fields h m s ms.

Definition timestamp_value (h m s ms : str) : Z :=
  int_digits ms + 1000 * int_digits s + 60000 * int_digits m
  + 3600000 * int_digits h.

(** The canonical, fully padded form [HH:MM:SS,mmm]. *)
Definition canonical_text (text : str) : Prop :=
  exists h m s ms,
    text = timestamp_text h m s ms /\ timestamp_fields h m s ms
    /\ length h = 2%nat /\ length m = 2%nat /\ length s = 2%nat
    /\ length ms = 3%nat.

(** The groups of a match of the timestamp pattern, latest first. *)
Definition timestamp_groups (h m s ms : str) : glist :=
  [(4%nat, ms); (3%nat, s); (2%nat, m); (1%nat, h)].

(** The hour field of the text of a timestamp. *)
Definition hours_field (self : Timestamp) : str :=
  zfill 2 (str_of_int (millis self / (60 * 60 * 1000))).

(** The field of width [w] printed for [n] has [w] characters, all decimal
    digits, and reads back as [n]. *)
Definition field_ok (w : nat) (n : Z) : bool :=
  let s := zfill w (str_of_int n) in
  Nat.eqb (length s) w && forallb isdecimal_char s && (int_digits s =? n).

(** ** What the specification says of documents *)

(** The state of the parser with the records [subs] completed and no record
    pending. *)
Definition between_records (subs : list Subtitle) : Locals.t :=
  Locals.Build NEW_SUBTITLE subs None None None [].

(** A well-formed block and the record it stands for: a number line of
    decimal digits only, at most 4300 of them, a line with two valid
    timestamps separated by [-->], and one or more lines that are not
    blank.  Lines are read after trimming. *)
Inductive wf_block : list str -> Subtitle -> Prop :=
| wf_block_intro (number_line timestamps_line : str) (text_lines : list str)
    (a b : str) (t1 t2 : Timestamp) :
    strip number_line <> [] ->
    forallb isdecimal_char (strip number_line) = true ->
    Z.of_nat (length (strip number_line)) <= max_str_digits ->
    strip timestamps_line = a ++ arrow ++ b ->
    from_str (strip a) = Ok t1 ->
    from_str (strip b) = Ok t2 ->
    text_lines <> [] ->
    Forall (fun l => strip l <> []) text_lines ->
    wf_block (number_line :: timestamps_line :: text_lines)
      {| number := int_digits (strip number_line);
         start := t1; end_ := t2;
         text := map strip text_lines |}.

(** A document of well-formed blocks separated by single blank lines, with
    or without a blank line after the last block, and its records. *)
Inductive wf_doc : list str -> list Subtitle -> Prop :=
| wf_doc_nil : wf_doc [] []
| wf_doc_last (block : list str) (r : Subtitle) :
    wf_block block r -> wf_doc block [r]
| wf_doc_cons (block : list str) (r : Subtitle) (blank : str)
    (more : list str) (rs : list Subtitle) :
    wf_block block r -> strip blank = [] -> wf_doc more rs ->
    wf_doc (block ++ blank :: more) (r :: rs).

(** The lines [pre] are read without error and leave the parser in state
    [st]. *)
Definition expecting (pre : list str) (st : ParserState) : Prop :=
  exists v, parse_lines initial_locals pre = Ok v /\ Locals.state v = st.

(** A text of the shape [h:m:s,ms], each part made of decimal digits, with
    a part whose value is out of range. *)
Definition out_of_range (text : str) : Prop :=
  exists h m s ms,
    text = timestamp_text h m s ms
    /\ forallb isdecimal_char h = true /\ forallb isdecimal_char m = true
    /\ forallb isdecimal_char s = true /\ forallb isdecimal_char ms = true
    /\ (23 < int_digits h \/ 59 < int_digits m \/ 59 < int_digits s
        \/ 999 < int_digits ms).

(** The malformed inputs of the specification. *)
Inductive bad_input : list str -> Prop :=
| bad_number (pre : list str) (line : str) (c : ascii) (more : list str) :
    expecting pre NEW_SUBTITLE ->
    In c (strip line) -> isdecimal_char c = false ->
    bad_input (pre ++ line :: more)
| bad_separator (pre : list str) (line : str) (more : list str) :
    expecting pre TIMESTAMPS ->
    length (split arrow (strip line)) <> 2%nat ->
    bad_input (pre ++ line :: more)
| bad_timestamp (pre : list str) (line a b : str) (more : list str) :
    expecting pre TIMESTAMPS ->
    split arrow (strip line) = [a; b] ->
    out_of_range (strip a) \/ out_of_range (strip b) ->
    bad_input (pre ++ line :: more)
| bad_no_text_blank (pre : list str) (timestamps_line blank : str)
    (more : list str) :
    expecting pre TIMESTAMPS ->
    expecting (pre ++ [timestamps_line]) TEXT ->
    strip blank = [] ->
    bad_input (pre ++ timestamps_line :: blank :: more)
| bad_no_text_eof (pre : list str) (timestamps_line : str) :
    expecting pre TIMESTAMPS ->
    expecting (pre ++ [timestamps_line]) TEXT ->
    bad_input (pre ++ [timestamps_line])
| bad_truncated (pre : list str) :
    expecting pre TIMESTAMPS ->
    bad_input pre.

(** What holds of the local variables of [parse_srt_file] before each
    line: the text buffer is empty outside state TEXT, the pending fields
    are set when they are needed, and no number is negative. *)
Definition locals_ok (v : Locals.t) : Prop :=
  match Locals.state v with
  | NEW_SUBTITLE => Locals.text v = []
  | TIMESTAMPS => Locals.text v = [] /\ Locals.number v <> None
  | TEXT =>
      Locals.number v <> None /\ Locals.start v <> None
      /\ Locals.end_ v <> None
  end
  /\ Forall (fun r => 0 <= number r) (Locals.subtitles v)
  /\ (forall n, Locals.number v = Some n -> 0 <= n).

(** What holds as well: every number that [int] returned has at most 4300
    digits. *)
Definition locals_bounded (v : Locals.t) : Prop :=
  Forall (fun r => number r < str_limit) (Locals.subtitles v)
  /\ (forall n, Locals.number v = Some n -> n < str_limit).

(** Two example documents. *)
Definition nl (s : string) : str := lit s ++ ["010"%char].

Definition example_doc : list str :=
  [ nl "1"; nl "00:00:01,000 --> 00:00:02,000"; nl "Hello"; nl "  there ";
    nl "";
    nl "2"; nl "00:00:05,000 --> 00:00:06,000"; lit "World" ].

Definition example_records : list Subtitle :=
  [ {| number := 1; start := {| millis := 1000 |};
       end_ := {| millis := 2000 |}; text := [lit "Hello"; lit "there"] |};
    {| number := 2; start := {| millis := 5000 |};
       end_ := {| millis := 6000 |}; text := [lit "World"] |} ].

Definition zero_doc : list str :=
  [ nl "0"; nl "00:00:01,000 --> 00:00:02,000"; nl "Hi" ].

Definition raises_ValueError {A} (m : result A) : Prop :=
  exists args, m = Raise (ValueError args).

Definition truncated_doc : list str :=
  [ nl "1"; nl "00:00:01,000 --> 00:00:02,000"; nl "Hello"; nl ""; nl "2" ].

(** ** Further definitions *)

(** A string with no whitespace at either end. *)
Definition clean (s : str) : bool :=
  match s with [] => true | c :: _ => negb (isspace c) end
  && match rev s with [] => true | c :: _ => negb (isspace c) end.

(** The text of a record as the parser builds it: lines that are not empty
    and carry no whitespace at their ends. *)
Definition text_ok (txt : list str) : Prop :=
  Forall (fun l => l <> [] /\ strip l = l) txt.

(** A timestamp below 24 hours. *)
Definition time_ok (t : Timestamp) : Prop := 0 <= millis t <= 86399999.

Definition record_ok (r : Subtitle) : Prop :=
  text r <> [] /\ text_ok (text r) /\ time_ok (start r) /\ time_ok (end_ r).

(** What holds, besides [locals_ok], of the local variables of
    [parse_srt_file] before each line. *)
Definition locals_wf (v : Locals.t) : Prop :=
  Forall record_ok (Locals.subtitles v)
  /\ text_ok (Locals.text v)
  /\ (forall t, Locals.start v = Some t -> time_ok t)
  /\ (forall t, Locals.end_ v = Some t -> time_ok t).

(** ** Writing a file *)

(** A Subtitle object: its identity (what [is] compares) and its fields,
    which this program never changes after construction. *)
Record object := { addr : nat; value : Subtitle }.

(** [a is b] *)
Definition is_ (a b : object) : bool := Nat.eqb (addr a) (addr b).

(** The loop of [write_srt_file] over the remaining objects [todo], with
    the text [f] written so far.  [subtitles[-1]] is only evaluated inside
    the loop, where the list is not empty. *)
Fixpoint write_loop (subtitles todo : list object) (f : str) : str :=
  match todo with
  | [] => f
  | sub :: todo' =>
      let f := f ++ Subtitle_str (value sub) in
      let f := if negb (is_ sub (last subtitles sub)) then f ++ ["010"%char] else f in
      write_loop subtitles todo' f
  end.

(** [write_srt_file(filename, subtitles)]: the text that the file holds
    when the [with] block ends (mode ["w"] starts from an empty file), for
    records that [str] prints. *)
Definition write_srt_file (subtitles : list object) : str :=
  write_loop subtitles subtitles [].

(** The objects made by constructing the records of [subs] one after the
    other, the first at address [base]. *)
Fixpoint fresh_objects (base : nat) (subs : list Subtitle) : list object :=
  match subs with
  | [] => []
  | sub :: subs' =>
      {| addr := base; value := sub |} :: fresh_objects (S base) subs'
  end.

(** What [write_srt_file] appends for [sub] when the last object of the
    list is [lst]. *)
Definition written_piece (lst sub : object) : str :=
  Subtitle_str (value sub) ++ if is_ sub lst then [] else ["010"%char].

(** The records printed one after the other with one empty line between
    two of them. *)
Definition joined_records (subs : list Subtitle) : str :=
  join ["010"%char] (map Subtitle_str subs).

(** ** Reading a file *)

(** The newline translation of a text stream opened by [open(filename)]:
    [\r\n] and [\r] are read as [\n]. *)
Fixpoint universal_newlines (s : str) : str :=
  match s with
  | [] => []
  | c :: s' =>
      if Ascii.eqb c "013"
      then "010"%char
           :: match s' with
              | c' :: s'' =>
                  if Ascii.eqb c' "010" then universal_newlines s''
                  else universal_newlines s'
              | [] => []
              end
      else c :: universal_newlines s'
  end.

(** The lines that iterating over a text stream yields: each ends with its
    [\n], except a last line that has none.  [cur] is the current line,
    reversed. *)
Fixpoint iter_lines (cur : str) (s : str) : list str :=
  match s with
  | [] => match cur with [] => [] | _ => [rev cur] end
  | c :: s' =>
      if Ascii.eqb c "010" then rev (c :: cur) :: iter_lines [] s'
      else iter_lines (c :: cur) s'
  end.

(** [for line in f] for [f = open(filename)] on a file with the text
    [content].  A text written with [\n] as its only line end reads back
    the same whether or not the platform stores [\n] as [\r\n]. *)
Definition readlines (content : str) : list str :=
  iter_lines [] (universal_newlines content).

(** The part of [__main__] that follows the parsing of the arguments, for
    the subcommand [delay]: [content] is the text of the file [filename];
    [milliseconds] is [args.milliseconds], which argparse read with [int];
    the result pairs the printed lines with the name and the text of the
    file written, or with the exception that ends the run before any file
    is written. *)
Definition main_delay (filename content : str) (milliseconds : Z)
  : list str * result (str * str) :=
  match parse_srt_file (readlines content) with
  | Raise e => ([], Raise e)
  | Ok original_subtitles =>
      match delay_subtitles original_subtitles milliseconds with
      | (out, Raise e) => (out, Raise e)
      | (out, Ok modified_subtitles) =>
          (out, Ok (lit "delayed_" ++ filename,
                    write_srt_file (fresh_objects 0 modified_subtitles)))
      end
  end.

(** A string without line ends. *)
Definition no_newline (l : str) : Prop :=
  ~ In "010"%char l /\ ~ In "013"%char l.

(** A text line that is written and read back unchanged. *)
Definition line_ok (l : str) : Prop :=
  l <> [] /\ strip l = l /\ no_newline l.

(** A record that is written and read back unchanged; its number has at
    most 4300 digits, so that [str] prints it and [int] reads it. *)
Definition printable (r : Subtitle) : Prop :=
  0 <= number r < str_limit /\ time_ok (start r) /\ time_ok (end_ r)
  /\ text r <> [] /\ Forall line_ok (text r).

(** The lines of the text of a record, without their line ends. *)
Definition record_lines (r : Subtitle) : list str :=
  str_of_int (number r)
  :: (Timestamp_str (start r) ++ lit " --> " ++ Timestamp_str (end_ r))
  :: text r.

(** The lines of the joined records, without their line ends. *)
Fixpoint doc_lines (rs : list Subtitle) : list str :=
  match rs with
  | [] => []
  | [r] => record_lines r
  | r :: rs' => record_lines r ++ [] :: doc_lines rs'
  end.

Definition with_newline (l : str) : str := l ++ ["010"%char].

(** A string without whitespace. *)
Definition nospace (s : str) : bool :=
  forallb (fun c => negb (isspace c)) s.

(** What holds of the local variables of [parse_srt_file] when no trimmed
    input line has a line end inside. *)
Definition locals_inline (v : Locals.t) : Prop :=
  Forall (fun r => Forall no_newline (text r)) (Locals.subtitles v)
  /\ Forall no_newline (Locals.text v).

(** The local variables [v] with the records [subs] put before its
    completed records. *)
Definition prepend (subs : list Subtitle) (v : Locals.t) : Locals.t :=
  Locals.Build (Locals.state v) (subs ++ Locals.subtitles v)
    (Locals.number v) (Locals.start v) (Locals.end_ v) (Locals.text v).

(** In state NEW_SUBTITLE no record is pending. *)
Definition idle_ok (v : Locals.t) : Prop :=
  Locals.state v = NEW_SUBTITLE -> v = between_records (Locals.subtitles v).

(** The lines, without their line ends, of the records [pre] when a
    further record follows: each record and then an empty line. *)
Definition lines_before (pre : list Subtitle) : list str :=
  concat (map (fun p => record_lines p ++ [[]]) pre).

(** A record that has all of [printable] but the bound on its
    timestamps. *)
Definition printable_unbounded (r : Subtitle) : Prop :=
  0 <= number r /\ 0 <= millis (start r) /\ 0 <= millis (end_ r)
  /\ text r <> [] /\ Forall line_ok (text r).

(** A record whose number has 4301 digits, and a record after it. *)
Definition huge_record : Subtitle :=
  {| number := 10 ^ 4300; start := {| millis := 0 |};
     end_ := {| millis := 500 |}; text := [lit "Hi"] |}.

Definition second_record : Subtitle :=
  {| number := 2; start := {| millis := 5000 |};
     end_ := {| millis := 6000 |}; text := [lit "World"] |}.

(** A removed record whose notice cannot be printed. *)
Definition notice_fails (offset : Z) (sub : Subtitle) : Prop :=
  millis (end_ sub) + offset < 0 /\ str_limit <= Z.abs (number sub).

(** A document whose only block has a number line of 4301 digits. *)
Definition long_number_doc : list str :=
  [ repeat "1"%char 4301 ++ ["010"%char];
    nl "00:00:01,000 --> 00:00:02,000"; nl "Hi" ].
(** * Properties *)

(** ** [delayed_by] *)

Lemma delayed_by_clamped (t : Timestamp) (d : Z) :
  delayed_by t d true = Ok {| millis := Z.max (millis t + d) 0 |}.
Proof.
  unfold delayed_by. now rewrite andb_false_r.
Qed.

Lemma delayed_by_unclamped (t : Timestamp) (d : Z) :
  delayed_by t d false =
  if millis t + d <? 0 then Raise NegativeTimestampException
  else Ok {| millis := millis t + d |}.
Proof.
  unfold delayed_by. rewrite andb_true_r.
  destruct (Z.ltb_spec (millis t + d) 0); [reflexivity|].
  now rewrite Z.max_l by lia.
Qed.

Lemma delayed_by_nonneg (t : Timestamp) (d : Z) (clamp_to_zero : bool) :
  0 <= millis t + d ->
  delayed_by t d clamp_to_zero = Ok {| millis := millis t + d |}.
Proof.
  intros H. destruct clamp_to_zero.
  - rewrite delayed_by_clamped. now rewrite Z.max_l by lia.
  - rewrite delayed_by_unclamped.
    destruct (Z.ltb_spec (millis t + d) 0); [lia | reflexivity].
Qed.

(** C4. Delaying [t] by [d]: when [t.millis + d >= 0] the result is
    [Timestamp(t.millis + d)] for either value of [clamp_to_zero] (so for
    every non-negative [d] on a non-negative [t]); when [t.millis + d < 0]
    the result is [Timestamp(0)] with clamping and NegativeTimestamp,
    without a value, without it. *)
Theorem delayed_by_spec (t : Timestamp) (d : Z) :
  (0 <= millis t + d ->
   forall clamp_to_zero,
     delayed_by t d clamp_to_zero = Ok {| millis := millis t + d |})
  /\ (0 <= millis t -> 0 <= d ->
      forall clamp_to_zero,
        delayed_by t d clamp_to_zero = Ok {| millis := millis t + d |})
  /\ (millis t + d < 0 ->
      delayed_by t d true = Ok {| millis := 0 |}
      /\ delayed_by t d false = Raise NegativeTimestampException).
Proof.
  split; [|split].
  - intros H c. now apply delayed_by_nonneg.
  - intros Ht Hd c. apply delayed_by_nonneg. lia.
  - intros H. split.
    + rewrite delayed_by_clamped. now rewrite Z.max_r by lia.
    + rewrite delayed_by_unclamped.
      destruct (Z.ltb_spec (millis t + d) 0); [reflexivity | lia].
Qed.

Lemma delayed_by_spec_witness :
  (0 <= 1000 + 500 ->
   forall c, delayed_by {| millis := 1000 |} 500 c = Ok {| millis := 1500 |})
  /\ (-500 + 0 < 0 ->
      delayed_by {| millis := 500 |} (-1000) true = Ok {| millis := 0 |}
      /\ delayed_by {| millis := 500 |} (-1000) false
         = Raise NegativeTimestampException).
Proof.
  split.
  - intros _. apply (proj1 (delayed_by_spec {| millis := 1000 |} 500)).
    simpl. lia.
  - intros _.
    apply (proj2 (proj2 (delayed_by_spec {| millis := 500 |} (-1000)))).
    simpl. lia.
Defined.

(** ** [delay_subtitles] *)

Lemma str_int_ok (n : Z) :
  Z.abs n < str_limit -> str_int n = Ok (str_of_int n).
Proof.
  intros H. unfold str_int.
  destruct (Z.leb_spec str_limit (Z.abs n)); [lia | reflexivity].
Qed.

Lemma str_int_raise (n : Z) :
  str_limit <= Z.abs n -> str_int n = Raise digit_limit_error.
Proof.
  intros H. unfold str_int.
  destruct (Z.leb_spec str_limit (Z.abs n)); [reflexivity | lia].
Qed.

Lemma format_notice_ok (sub : Subtitle) :
  Z.abs (number sub) < str_limit -> format_notice sub = Ok (removed_notice sub).
Proof. intros H. unfold format_notice. now rewrite (str_int_ok _ H). Qed.

Lemma format_notice_raise (sub : Subtitle) :
  str_limit <= Z.abs (number sub) ->
  format_notice sub = Raise digit_limit_error.
Proof. intros H. unfold format_notice. now rewrite (str_int_raise _ H). Qed.

Lemma small_below_str_limit (n : Z) : Z.abs n < 10 ^ 18 -> Z.abs n < str_limit.
Proof.
  intros H. apply (Z.lt_le_trans _ _ _ H). unfold str_limit, max_str_digits.
  apply Z.pow_le_mono_r; lia.
Qed.

Lemma delay_loop_step (sub : Subtitle) (subs : list Subtitle) (d : Z)
  (rv : list Subtitle) (out : list str) :
  delay_loop (sub :: subs) d rv out
  = if survives d sub
    then delay_loop subs d (rv ++ [delayed_record d (length rv) sub]) out
    else match format_notice sub with
         | Ok line => delay_loop subs d rv (out ++ [line])
         | Raise e => (out, Raise e)
         end.
Proof.
  cbn [delay_loop]. rewrite delayed_by_clamped, delayed_by_unclamped.
  unfold survives.
  destruct (Z.ltb_spec (millis (end_ sub) + d) 0);
    destruct (Z.leb_spec 0 (millis (end_ sub) + d)); try lia; reflexivity.
Qed.

Lemma delay_loop_spec (d : Z) (subs : list Subtitle) :
  Forall (notice_ok d) subs ->
  forall rv out,
    delay_loop subs d rv out =
    (out ++ map removed_notice (filter (removed d) subs),
     Ok (rv ++ delayed_from d (length rv) (filter (survives d) subs))).
Proof.
  induction 1 as [|sub subs Hsub _ IH]; intros rv out.
  - simpl. now rewrite !app_nil_r.
  - rewrite delay_loop_step. cbn [filter]. unfold notice_ok in Hsub.
    destruct (survives d sub) eqn:E; unfold survives in E.
    + assert (R : removed d sub = false)
        by (apply Z.ltb_ge; apply Z.leb_le in E; lia).
      rewrite R, IH. cbn [delayed_from]. rewrite <- app_assoc. cbn [app].
      rewrite length_app. cbn [length].
      now replace (length rv + 1)%nat with (S (length rv)) by lia.
    + apply Z.leb_gt in E.
      assert (R : removed d sub = true) by (apply Z.ltb_lt; lia).
      rewrite R, (format_notice_ok sub) by auto. rewrite IH. cbn [map].
      now rewrite <- app_assoc.
Qed.

Lemma delay_loop_raise (d : Z) (subs : list Subtitle) :
  Exists (notice_fails d) subs ->
  forall rv out, snd (delay_loop subs d rv out) = Raise digit_limit_error.
Proof.
  induction subs as [|sub subs IH]; intros E rv out; [inversion E|].
  rewrite delay_loop_step. unfold survives.
  destruct (Z.leb_spec 0 (millis (end_ sub) + d)) as [K|K].
  - apply IH. inversion E as [? ? [Bad _]|]; [lia | assumption].
  - destruct (Z.lt_ge_cases (Z.abs (number sub)) str_limit) as [L|L].
    + rewrite (format_notice_ok sub L). apply IH.
      inversion E as [? ? [_ Bad]|]; [lia | assumption].
    + now rewrite (format_notice_raise sub L).
Qed.

Lemma notice_ok_or_fails (d : Z) (subs : list Subtitle) :
  Forall (notice_ok d) subs \/ Exists (notice_fails d) subs.
Proof.
  induction subs as [|sub subs [IH|IH]]; [left; constructor | |].
  - destruct (Z.lt_ge_cases (millis (end_ sub) + d) 0) as [K|K].
    + destruct (Z.lt_ge_cases (Z.abs (number sub)) str_limit) as [L|L].
      * left. constructor; [intros _; exact L | exact IH].
      * right. left. split; assumption.
    + left. constructor; [unfold notice_ok; lia | exact IH].
  - right. now right.
Qed.

Lemma delay_subtitles_ok (subs : list Subtitle) (d : Z) :
  Forall (notice_ok d) subs ->
  delay_subtitles subs d
  = (map removed_notice (filter (removed d) subs),
     Ok (delayed_from d 0 (filter (survives d) subs))).
Proof. intros H. unfold delay_subtitles. now rewrite (delay_loop_spec d subs H). Qed.

Lemma delay_subtitles_returns (subs out : list Subtitle) (d : Z) :
  snd (delay_subtitles subs d) = Ok out ->
  Forall (notice_ok d) subs
  /\ out = delayed_from d 0 (filter (survives d) subs).
Proof.
  intros H. destruct (notice_ok_or_fails d subs) as [K|K].
  - split; [exact K|]. rewrite (delay_subtitles_ok subs d K) in H.
    simpl in H. now injection H as <-.
  - unfold delay_subtitles in H. rewrite (delay_loop_raise d subs K) in H.
    discriminate.
Qed.

Lemma length_delayed_from (d : Z) (subs : list Subtitle) :
  forall i, length (delayed_from d i subs) = length subs.
Proof.
  induction subs; intros i; simpl; [reflexivity | now rewrite IHsubs].
Qed.

Lemma nth_error_delayed_from (d : Z) (subs : list Subtitle) :
  forall i k,
    nth_error (delayed_from d i subs) k =
    option_map (delayed_record d (i + k)) (nth_error subs k).
Proof.
  induction subs as [|sub subs IH]; intros i [|k]; simpl; try reflexivity.
  - now rewrite Nat.add_0_r.
  - rewrite IH. now replace (S i + k)%nat with (i + S k)%nat by lia.
Qed.

(** C2, as the code has it.  When the number of every removed record has
    at most 4300 digits, [delay_subtitles] returns, in input order, one
    record per input record whose end plus the offset is not negative, and
    none for the others; the record at 1-based position [i+1] has number
    [i+1], start [max(start.millis + offset, 0)], end [end.millis + offset]
    and the text of its input record.  Three records numbered 5, 9, 12
    with ends 500, 2000, 5000 give, under offset -1000, two records
    numbered 1 and 2 with ends 1000 and 4000. *)
Theorem delay_subtitles_spec :
  (forall (subs : list Subtitle) (d : Z),
     Forall (fun sub =>
               millis (end_ sub) + d < 0 -> Z.abs (number sub) < 10 ^ 4300)
       subs ->
     let kept := filter (survives d) subs in
     exists out,
       snd (delay_subtitles subs d) = Ok out
       /\ out = delayed_from d 0 kept
       /\ length out = length kept
       /\ (forall i,
              nth_error out i =
              option_map
                (fun sub =>
                   {| number := Z.of_nat i + 1;
                      start := {| millis := Z.max (millis (start sub) + d) 0 |};
                      end_ := {| millis := millis (end_ sub) + d |};
                      text := text sub |})
                (nth_error kept i))
       /\ (forall sub,
              In sub kept <-> In sub subs /\ 0 <= millis (end_ sub) + d))
  /\ (forall s1 s2 s3 t1 t2 t3,
        snd (delay_subtitles
               [ {| number := 5; start := s1; end_ := {| millis := 500 |};
                    text := t1 |};
                 {| number := 9; start := s2; end_ := {| millis := 2000 |};
                    text := t2 |};
                 {| number := 12; start := s3; end_ := {| millis := 5000 |};
                    text := t3 |} ] (-1000))
        = Ok [ {| number := 1;
                  start := {| millis := Z.max (millis s2 + -1000) 0 |};
                  end_ := {| millis := 1000 |}; text := t2 |};
               {| number := 2;
                  start := {| millis := Z.max (millis s3 + -1000) 0 |};
                  end_ := {| millis := 4000 |}; text := t3 |} ]).
Proof.
  split.
  - intros subs d H kept. rewrite (delay_subtitles_ok subs d H).
    simpl. fold kept. exists (delayed_from d 0 kept).
    split; [reflexivity|]. split; [reflexivity|].
    split; [apply length_delayed_from|]. split.
    + intros i. now rewrite nth_error_delayed_from.
    + intros sub. unfold kept. rewrite filter_In. unfold survives.
      rewrite Z.leb_le. tauto.
  - intros. rewrite delay_subtitles_ok; [reflexivity|].
    repeat constructor; intros _; apply small_below_str_limit; simpl; lia.
Qed.

Lemma delay_subtitles_spec_witness :
  snd (delay_subtitles example_records (-1500))
  = Ok [ {| number := 1; start := {| millis := 0 |};
            end_ := {| millis := 500 |}; text := [lit "Hello"; lit "there"] |};
         {| number := 2; start := {| millis := 3500 |};
            end_ := {| millis := 4500 |}; text := [lit "World"] |} ].
Proof.
  destruct (proj1 delay_subtitles_spec example_records (-1500))
    as (out & -> & -> & _).
  - repeat constructor; intros _; apply small_below_str_limit; simpl; lia.
  - reflexivity.
Defined.

(** C2, as stated, fails: for a record numbered [10**4300] with end 500 ms
    and offset -1000, the record is to be removed, formatting its notice
    raises ValueError, and [delay_subtitles] returns no list. *)
Lemma delay_subtitles_huge_number :
  millis (end_ huge_record) + -1000 < 0
  /\ snd (delay_subtitles [huge_record] (-1000)) = Raise digit_limit_error
  /\ ~ (exists out, snd (delay_subtitles [huge_record] (-1000)) = Ok out).
Proof.
  assert (E : snd (delay_subtitles [huge_record] (-1000))
              = Raise digit_limit_error) by (vm_compute; reflexivity).
  split; [simpl; lia|]. split; [exact E|].
  intros [out H]. rewrite E in H. discriminate.
Qed.

(** C7, as the code has it.  [delay_subtitles] never lets a
    NegativeTimestamp escape: that of an end timestamp is raised exactly
    for the records whose end plus the offset is negative and is caught,
    delaying a start timestamp (with [clamp_to_zero=True]) raises nothing.
    The only error that escapes is the ValueError of formatting the notice
    of a removed record whose number has more than 4300 digits; when no
    removed record has such a number, [delay_subtitles] returns a list,
    each removed record is left out and gets one printed notice. *)
Theorem delay_subtitles_total (subs : list Subtitle) (d : Z) :
  (snd (delay_subtitles subs d) <> Raise NegativeTimestampException
   /\ forall e,
       snd (delay_subtitles subs d) = Raise e ->
       e = digit_limit_error
       /\ Exists (fun sub => millis (end_ sub) + d < 0
                             /\ 10 ^ 4300 <= Z.abs (number sub)) subs)
  /\ (Forall (fun sub =>
                millis (end_ sub) + d < 0 -> Z.abs (number sub) < 10 ^ 4300)
        subs ->
      exists rv,
        delay_subtitles subs d
        = (map removed_notice (filter (removed d) subs), Ok rv)
        /\ (length rv + length (filter (removed d) subs) = length subs)%nat)
  /\ (forall sub,
         delayed_by (end_ sub) d false = Raise NegativeTimestampException
         <-> removed d sub = true)
  /\ (forall sub, exists t, delayed_by (start sub) d true = Ok t).
Proof.
  assert (G : forall e,
             snd (delay_subtitles subs d) = Raise e ->
             e = digit_limit_error
             /\ Exists (fun sub => millis (end_ sub) + d < 0
                                   /\ 10 ^ 4300 <= Z.abs (number sub)) subs).
  { intros e H. destruct (notice_ok_or_fails d subs) as [K|K].
    - rewrite (delay_subtitles_ok subs d K) in H. discriminate.
    - split; [|exact K]. unfold delay_subtitles in H.
      rewrite (delay_loop_raise d subs K) in H. now injection H as <-. }
  split; [split; [|exact G]|split; [|split]].
  - intros H. apply G in H as [H _]. discriminate.
  - intros H. rewrite (delay_subtitles_ok subs d H).
    eexists. split; [reflexivity|].
    rewrite length_delayed_from. clear.
    induction subs as [|sub subs IH]; simpl; [reflexivity|].
    unfold survives at 1, removed at 1.
    destruct (Z.leb_spec 0 (millis (end_ sub) + d));
      destruct (Z.ltb_spec (millis (end_ sub) + d) 0); simpl; lia.
  - intros sub. rewrite delayed_by_unclamped. unfold removed.
    destruct (millis (end_ sub) + d <? 0); split; congruence.
  - intros sub. rewrite delayed_by_clamped. eexists. reflexivity.
Qed.

Lemma delay_subtitles_total_witness :
  exists rv,
    delay_subtitles example_records (-2500)
    = ([lit "End of subtitle 1 was advanced before 00:00:00,000 so the whole subtitle was removed."],
       Ok rv)
    /\ length rv = 1%nat.
Proof.
  destruct (proj1 (proj2 (delay_subtitles_total example_records (-2500))))
    as (rv & E & L).
  - repeat constructor; intros _; apply small_below_str_limit; simpl; lia.
  - exists rv. split; [exact E|]. simpl in L. lia.
Defined.

(** C7, as stated, fails: with the records numbered [10**4300] (end 500 ms)
    and 2 (end 6000 ms) and offset -1000, the ValueError of the notice of
    the first record escapes [delay_subtitles]. *)
Lemma delay_subtitles_raises_ValueError :
  delay_subtitles [huge_record; second_record] (-1000)
  = ([], Raise digit_limit_error)
  /\ ~ (forall subs d, exists rv, snd (delay_subtitles subs d) = Ok rv).
Proof.
  assert (E : delay_subtitles [huge_record; second_record] (-1000)
              = ([], Raise digit_limit_error)) by (vm_compute; reflexivity).
  split; [exact E|]. intros H.
  destruct (H [huge_record; second_record] (-1000)) as [rv Hrv].
  rewrite E in Hrv. discriminate.
Qed.

(** ** The matcher and the language of a pattern *)


Lemma run_repeat_matches f D :
  (forall st st', In st' (f st) <-> reaches D st st') ->
  forall hi lo st st',
    In st' (run_repeat f lo hi st) <-> reaches (matches_repeat D lo hi) st st'.
Proof.
  intros Hf. induction hi as [|hi IH]; intros lo st st'; simpl.
  - split.
    + intros H. destruct lo; [|contradiction].
      destruct H as [<-|[]]. exists []. simpl. rewrite Nat.add_0_r. auto.
    + intros (u & Hr & Hp & Hlo & -> & Hg). subst lo. left.
      destruct st, st'; simpl in *. f_equal; [lia | auto | auto].
  - rewrite in_app_iff, in_flat_map. split.
    + intros [(st1 & H1 & H2)|H].
      * apply Hf in H1. apply IH in H2.
        destruct H1 as (u1 & Hr1 & Hp1 & Hd1).
        destruct H2 as (u2 & Hr2 & Hp2 & Hd2).
        exists (u1 ++ u2). rewrite Hr1, Hr2, Hp2, Hp1, length_app.
        rewrite <- app_assoc, Nat.add_assoc. split; [reflexivity|].
        split; [reflexivity|]. left. exists u1, u2, (groups st1).
        split; [reflexivity|]. rewrite <- Hr2, <- Hp1. auto.
      * destruct lo; [|contradiction]. destruct H as [<-|[]].
        exists []. simpl. rewrite Nat.add_0_r. auto 6.
    + intros (u & Hr & Hp & [(u1 & u2 & g1 & -> & Hd1 & Hd2)|(-> & -> & Hg)]).
      * left. exists (MState (pos st + length u1) (u2 ++ rest st') g1).
        split.
        -- apply Hf. exists u1. simpl. rewrite Hr, <- app_assoc. auto.
        -- apply IH. exists u2. simpl. rewrite Hp, length_app. 
           split; [reflexivity|]. split; [lia | assumption].
      * right. left. destruct st, st'; simpl in *. f_equal; [lia | auto | auto].
Qed.

Lemma run_matches (r : regex) :
  forall st st', In st' (run r st) <-> reaches (matches r) st st'.
Proof.
  induction r as [c|items|r1 IH1 r2 IH2|r1 IH1 r2 IH2|lo hi r1 IH1|n r1 IH1| |];
    intros st st'.
  - unfold reaches. simpl. destruct st as [p [|x s'] g]; simpl.
    + split; [contradiction|]. intros (u & H & _ & -> & _). discriminate.
    + destruct (Ascii.eqb_spec x c) as [->|Hne]; simpl.
      * split.
        -- intros [<-|[]]. exists [c]. simpl. split; [reflexivity|].
           split; [lia | auto].
        -- intros (u & H & Hp & -> & Hg). left. injection H as H.
           destruct st'; simpl in *. unfold advance; simpl.
           f_equal; [lia | auto | auto].
      * split; [contradiction|]. intros (u & H & _ & -> & _).
        injection H as H _. congruence.
  - unfold reaches. simpl. destruct st as [p [|x s'] g]; simpl.
    + split; [contradiction|]. intros (u & H & _ & y & -> & _). discriminate.
    + destruct (in_cset x items) eqn:E; simpl.
      * split.
        -- intros [<-|[]]. exists [x]. simpl. split; [reflexivity|].
           split; [lia | eauto].
        -- intros (u & H & Hp & y & -> & _ & Hg). left. injection H as _ H.
           destruct st'; simpl in *. unfold advance; simpl.
           f_equal; [lia | auto | auto].
      * split; [contradiction|]. intros (u & H & _ & y & -> & Hy & _).
        injection H as H _. congruence.
  - simpl. rewrite in_flat_map. split.
    + intros (st1 & H1 & H2). apply IH1 in H1. apply IH2 in H2.
      destruct H1 as (u1 & Hr1 & Hp1 & Hd1).
      destruct H2 as (u2 & Hr2 & Hp2 & Hd2).
      exists (u1 ++ u2). rewrite Hr1, Hr2, Hp2, Hp1, length_app.
      rewrite <- app_assoc, Nat.add_assoc. split; [reflexivity|].
      split; [reflexivity|]. exists u1, u2, (groups st1).
      split; [reflexivity|]. rewrite <- Hr2, <- Hp1. auto.
    + intros (u & Hr & Hp & u1 & u2 & g1 & -> & Hd1 & Hd2).
      exists (MState (pos st + length u1) (u2 ++ rest st') g1). split.
      * apply IH1. exists u1. simpl. rewrite Hr, <- app_assoc. auto.
      * apply IH2. exists u2. simpl. rewrite Hp, length_app.
        split; [reflexivity|]. split; [lia | assumption].
  - simpl. rewrite in_app_iff, IH1, IH2. unfold reaches. split.
    + intros [(u & H1 & H2 & H3)|(u & H1 & H2 & H3)]; exists u; auto.
    + intros (u & H1 & H2 & [H3|H3]); [left|right]; exists u; auto.
  - simpl. apply run_repeat_matches. exact IH1.
  - simpl. rewrite in_map_iff. split.
    + intros (st1 & <- & H1). apply IH1 in H1.
      destruct H1 as (u & Hr & Hp & Hd). exists u. simpl.
      split; [assumption|]. split; [assumption|]. exists (groups st1).
      split; [assumption|]. rewrite Hr, Hp.
      replace (pos st + length u - pos st)%nat with (length u) by lia.
      now rewrite firstn_app, Nat.sub_diag, firstn_all, app_nil_r.
    + intros (u & Hr & Hp & g1 & Hd & Hg).
      exists (MState (pos st') (rest st') g1). split.
      * unfold close_group. simpl. rewrite Hr, Hp.
        replace (pos st + length u - pos st)%nat with (length u) by lia.
        rewrite firstn_app, Nat.sub_diag, firstn_all, firstn_0, app_nil_r.
        destruct st'; simpl in *. now rewrite Hp, Hg.
      * apply IH1. exists u. simpl. auto.
  - unfold reaches. simpl. destruct (Nat.eqb_spec (pos st) 0) as [E|E]; simpl.
    + split.
      * intros [<-|[]]. exists []. simpl. rewrite Nat.add_0_r. auto.
      * intros (u & Hr & Hp & -> & _ & Hg). left.
        destruct st, st'; simpl in *. f_equal; [lia | auto | auto].
    + split; [contradiction|]. intros (u & _ & _ & _ & H & _). contradiction.
  - unfold reaches. simpl.
    assert (G : In st' [st] <->
                exists u, rest st = u ++ rest st'
                  /\ pos st' = (pos st + length u)%nat
                  /\ u = [] /\ groups st' = groups st).
    { split.
      - intros [<-|[]]. exists []. simpl. rewrite Nat.add_0_r. auto.
      - intros (u & Hr & Hp & -> & Hg). left.
        destruct st, st'; simpl in *. f_equal; [lia | auto | auto]. }
    destruct (rest st) as [|c [|c' s']] eqn:E.
    + rewrite G. split.
      * intros (u & Hr & Hp & -> & Hg). exists []. simpl in *.
        rewrite <- Hr. auto 6.
      * intros (u & Hr & Hp & -> & _ & Hg). exists []. auto.
    + destruct (Ascii.eqb_spec c "010") as [->|Hne].
      * rewrite G. split.
        -- intros (u & Hr & Hp & -> & Hg). exists []. simpl in *.
           rewrite <- Hr. auto 6.
        -- intros (u & Hr & Hp & -> & _ & Hg). exists []. auto.
      * split; [contradiction|].
        intros (u & Hr & Hp & -> & [H|H] & Hg); simpl in Hr;
          rewrite H in Hr; congruence.
    + split; [contradiction|].
      intros (u & Hr & Hp & -> & [H|H] & Hg); simpl in Hr;
        rewrite H in Hr; congruence.
Qed.

(** ** Characters and digit strings *)

Lemma ord_inj (a b : ascii) : ord a = ord b -> a = b.
Proof.
  unfold ord. intros H. apply N2Z.inj in H.
  rewrite <- (ascii_N_embedding a), <- (ascii_N_embedding b). now rewrite H.
Qed.

Lemma eqb_ord (a b : ascii) : Ascii.eqb a b = (ord a =? ord b).
Proof.
  destruct (Ascii.eqb_spec a b) as [->|Hne].
  - now rewrite Z.eqb_refl.
  - symmetry. apply Z.eqb_neq. intros H. apply Hne. now apply ord_inj.
Qed.

Lemma between_true (lo hi x : Z) : between lo hi x = true <-> lo <= x <= hi.
Proof. unfold between. rewrite andb_true_iff, !Z.leb_le. tauto. Qed.

Lemma isdecimal_char_true (c : ascii) :
  isdecimal_char c = true <-> 48 <= ord c <= 57.
Proof. apply between_true. Qed.

Lemma in_cset_range (x lo hi : ascii) :
  in_cset x [CRange lo hi] = true <-> ord lo <= ord x <= ord hi.
Proof.
  unfold in_cset. cbn [existsb]. rewrite orb_false_r. apply between_true.
Qed.

Lemma in_cset_two (x a b : ascii) :
  in_cset x [CChar a; CChar b] = true <-> ord x = ord a \/ ord x = ord b.
Proof.
  unfold in_cset. cbn [existsb].
  rewrite orb_false_r, orb_true_iff, !eqb_ord, !Z.eqb_eq. tauto.
Qed.

Lemma int_digits_app (s : str) (c : ascii) :
  int_digits (s ++ [c]) = 10 * int_digits s + digit_value c.
Proof. unfold int_digits. now rewrite fold_left_app. Qed.

Lemma int_digits_1 (a : ascii) : int_digits [a] = ord a - 48.
Proof. reflexivity. Qed.

Lemma int_digits_2 (a b : ascii) :
  int_digits [a; b] = 10 * (ord a - 48) + (ord b - 48).
Proof. reflexivity. Qed.

Lemma int_digits_3 (a b c : ascii) :
  int_digits [a; b; c] = 10 * (10 * (ord a - 48) + (ord b - 48)) + (ord c - 48).
Proof. reflexivity. Qed.

Lemma int_digits_nonneg (s : str) :
  forallb isdecimal_char s = true -> 0 <= int_digits s.
Proof.
  induction s as [|c s IH] using rev_ind; intros H.
  - unfold int_digits. simpl. lia.
  - rewrite forallb_app in H. apply andb_true_iff in H as [H1 H2].
    cbn [forallb] in H2. rewrite andb_true_r in H2.
    apply isdecimal_char_true in H2.
    rewrite int_digits_app. unfold digit_value. specialize (IH H1). lia.
Qed.

Lemma fold_digits_bounds (s : str) :
  forallb isdecimal_char s = true ->
  forall acc, 0 <= acc ->
    acc * 10 ^ Z.of_nat (length s)
    <= fold_left (fun a c => 10 * a + digit_value c) s acc
    < (acc + 1) * 10 ^ Z.of_nat (length s).
Proof.
  induction s as [|c s IH]; intros D acc Hacc.
  - simpl. lia.
  - simpl in D. apply andb_true_iff in D as [Dc D].
    apply isdecimal_char_true in Dc.
    cbn [fold_left length]. rewrite Nat2Z.inj_succ, Z.pow_succ_r by lia.
    assert (V : 0 <= digit_value c <= 9) by (unfold digit_value; lia).
    specialize (IH D (10 * acc + digit_value c) ltac:(lia)).
    pose proof (Z.pow_pos_nonneg 10 (Z.of_nat (length s))
                  ltac:(lia) ltac:(lia)) as Pw.
    nia.
Qed.

Lemma int_digits_lt (s : str) :
  forallb isdecimal_char s = true ->
  int_digits s < 10 ^ Z.of_nat (length s).
Proof.
  intros D. pose proof (fold_digits_bounds s D 0 ltac:(lia)) as B.
  unfold int_digits. lia.
Qed.

Lemma int_digits_ge (c : ascii) (s : str) :
  forallb isdecimal_char (c :: s) = true -> c <> "0"%char ->
  10 ^ Z.of_nat (length s) <= int_digits (c :: s).
Proof.
  intros D N. simpl in D. apply andb_true_iff in D as [Dc D].
  apply isdecimal_char_true in Dc.
  assert (V : 1 <= digit_value c).
  { unfold digit_value. destruct (Z.eq_dec (ord c) 48) as [E|E]; [|lia].
    exfalso. apply N. apply ord_inj. exact E. }
  pose proof (fold_digits_bounds s D (digit_value c) ltac:(lia)) as B.
  pose proof (Z.pow_pos_nonneg 10 (Z.of_nat (length s))
                ltac:(lia) ltac:(lia)) as Pw.
  unfold int_digits. cbn [fold_left].
  replace (10 * 0 + digit_value c) with (digit_value c) by lia. nia.
Qed.

Lemma leading_decimals_all (s : str) :
  forallb isdecimal_char s = true -> leading_decimals s = length s.
Proof.
  induction s as [|c s IH]; simpl; [reflexivity|].
  intros H. apply andb_true_iff in H as [-> H]. now rewrite IH.
Qed.

Lemma int_of_str_decimal (s : str) :
  s <> [] -> forallb isdecimal_char s = true ->
  Z.of_nat (length s) <= max_str_digits ->
  int_of_str s = Ok (int_digits s).
Proof.
  intros N D L. unfold int_of_str. rewrite (leading_decimals_all s D), D.
  destruct (Z.ltb_spec max_str_digits (Z.of_nat (length s))); [lia|].
  destruct s; [congruence | reflexivity].
Qed.

Lemma int_of_str_long (s : str) :
  forallb isdecimal_char s = true ->
  max_str_digits < Z.of_nat (length s) ->
  int_of_str s = Raise (int_limit_error (length s)).
Proof.
  intros D L. unfold int_of_str. rewrite (leading_decimals_all s D).
  destruct (Z.ltb_spec max_str_digits (Z.of_nat (length s))); [reflexivity|lia].
Qed.

Lemma int_of_str_inv (s : str) (n : Z) :
  int_of_str s = Ok n ->
  s <> [] /\ forallb isdecimal_char s = true
  /\ Z.of_nat (length s) <= max_str_digits /\ n = int_digits s.
Proof.
  unfold int_of_str.
  destruct (Z.ltb_spec max_str_digits (Z.of_nat (leading_decimals s)));
    [discriminate|].
  destruct s as [|c s]; [discriminate|].
  destruct (forallb isdecimal_char (c :: s)) eqn:D; [|discriminate].
  intros [= <-]. rewrite (leading_decimals_all _ D) in *.
  repeat split; auto. discriminate.
Qed.

Lemma int_of_str_bound (s : str) (n : Z) :
  int_of_str s = Ok n -> 0 <= n < str_limit.
Proof.
  intros H. apply int_of_str_inv in H as (_ & D & L & ->).
  split; [now apply int_digits_nonneg|].
  pose proof (int_digits_lt s D) as B.
  assert (P : 10 ^ Z.of_nat (length s) <= str_limit)
    by (apply Z.pow_le_mono_r; unfold max_str_digits in *; lia).
  lia.
Qed.

Lemma int_of_str_digits (lo hi : nat) (s : str) :
  digits_text (S lo) hi s -> (hi <= 3)%nat ->
  int_of_str s = Ok (int_digits s).
Proof.
  intros [[Hlo Hhi] H] B. apply int_of_str_decimal; auto.
  - destruct s; [simpl in Hlo; lia | discriminate].
  - unfold max_str_digits. lia.
Qed.

(** ** The language of the timestamp pattern *)

Ltac break_matches :=
  repeat match goal with
    | H : _ /\ _ |- _ => destruct H
    | H : exists _, _ |- _ => destruct H
    | H : _ \/ _ |- _ => destruct H
    | H : S _ = O |- _ => discriminate H
    | H : [] = _ :: _ |- _ => discriminate H
    end; subst.

Ltac char_facts :=
  repeat match goal with
    | H : in_cset _ [CRange _ _] = true |- _ =>
        apply in_cset_range in H;
        change (ord "0") with 48 in H; change (ord "3") with 51 in H;
        change (ord "5") with 53 in H; change (ord "9") with 57 in H
    | H : in_cset _ [CChar _; CChar _] = true |- _ =>
        apply in_cset_two in H;
        change (ord "0") with 48 in H; change (ord "1") with 49 in H
    | H : isdecimal_char _ = true |- _ => apply isdecimal_char_true in H
    | H : (_ && _)%bool = true |- _ => apply andb_true_iff in H as [? ?]
    end.

Ltac digits_goal :=
  unfold digits_text; cbn [length forallb]; rewrite ?andb_true_r;
  rewrite ?andb_true_iff, ?isdecimal_char_true,
    ?int_digits_1, ?int_digits_2, ?int_digits_3.

Lemma matches_millis_re i u tl g g' :
  matches millis_re i u tl g g' <-> g' = g /\ digits_text 1 3 u.
Proof.
  unfold millis_re. cbn [matches matches_repeat Nat.pred]. split.
  - intros H. break_matches; char_facts; simpl; digits_goal;
      (split; [reflexivity | repeat split; lia]).
  - intros [-> [[Hlo Hhi] Hd]].
    destruct u as [|a [|b [|c [|d u]]]]; simpl in Hlo, Hhi; try lia;
      cbn [forallb] in Hd; char_facts; left.
    + exists [a], [], g.
      split; [reflexivity|]. split; [exists a; rewrite in_cset_range; auto|].
      right. auto.
    + exists [a], [b], g.
      split; [reflexivity|]. split; [exists a; rewrite in_cset_range; auto|].
      left. exists [b], [], g.
      split; [reflexivity|]. split; [exists b; rewrite in_cset_range; auto|].
      right. auto.
    + exists [a], [b; c], g.
      split; [reflexivity|]. split; [exists a; rewrite in_cset_range; auto|].
      left. exists [b], [c], g.
      split; [reflexivity|]. split; [exists b; rewrite in_cset_range; auto|].
      left. exists [c], [], g.
      split; [reflexivity|]. split; [exists c; rewrite in_cset_range; auto|].
      auto.
Qed.

Lemma matches_sixty_re i u tl g g' :
  matches sixty_re i u tl g g'
  <-> g' = g /\ digits_text 1 2 u /\ 0 <= int_digits u <= 59.
Proof.
  unfold sixty_re. cbn [matches matches_repeat Nat.pred]. split.
  - intros H. break_matches; char_facts; simpl; digits_goal;
      (split; [reflexivity | repeat split; lia]).
  - intros [-> [[[Hlo Hhi] Hd] Hv]].
    destruct u as [|a [|b [|c u]]]; simpl in Hlo, Hhi; try lia;
      cbn [forallb] in Hd; char_facts.
    + exists [], [a], g. split; [reflexivity|]. split; [auto|].
      exists a. rewrite in_cset_range. auto.
    + rewrite int_digits_2 in Hv. exists [a], [b], g.
      split; [reflexivity|]. split.
      * left. exists [a], [], g. split; [reflexivity|]. split; [|auto].
        exists a. rewrite in_cset_range.
        change (ord "0") with 48; change (ord "5") with 53.
        repeat split; auto; lia.
      * exists b. rewrite in_cset_range. auto.
Qed.

Lemma matches_hours_re i u tl g g' :
  matches hours_re i u tl g g'
  <-> g' = g /\ digits_text 1 2 u /\ 0 <= int_digits u <= 23.
Proof.
  unfold hours_re. cbn [matches matches_repeat Nat.pred]. split.
  - intros H. break_matches; char_facts; simpl; digits_goal;
      try change (ord "2") with 50;
      (split; [reflexivity | repeat split; lia]).
  - intros [-> [[[Hlo Hhi] Hd] Hv]].
    destruct u as [|a [|b [|c u]]]; simpl in Hlo, Hhi; try lia;
      cbn [forallb] in Hd; char_facts.
    + left. exists [], [a], g. split; [reflexivity|]. split; [auto|].
      exists a. rewrite in_cset_range. auto.
    + rewrite int_digits_2 in Hv.
      destruct (Z.le_gt_cases (ord a) 49) as [Ha|Ha].
      * left. exists [a], [b], g. split; [reflexivity|]. split.
        -- left. exists [a], [], g. split; [reflexivity|]. split; [|auto].
           exists a. rewrite in_cset_two.
           change (ord "0") with 48; change (ord "1") with 49.
           repeat split; auto; lia.
        -- exists b. rewrite in_cset_range. auto.
      * right. exists [a], [b], g.
        assert (a = "2"%char) as -> by (apply ord_inj; change (ord "2") with 50; lia).
        split; [reflexivity|]. split; [auto|].
        exists b. rewrite in_cset_range.
        change (ord "0") with 48; change (ord "3") with 51.
        change (ord "2") with 50 in Hv. repeat split; auto; lia.
Qed.

Lemma matches_timestamp_re u g' :
  matches timestamp_re 0 u [] [] g'
  <-> exists h m s ms,
      u = timestamp_text h m s ms /\ timestamp_fields h m s ms
      /\ g' = timestamp_groups h m s ms.
Proof.
  unfold timestamp_re. cbn [matches]. split.
  - intros H. break_matches.
    repeat match goal with
      | H : matches hours_re _ _ _ _ _ |- _ =>
          apply matches_hours_re in H; destruct H as (-> & ? & ?)
      | H : matches sixty_re _ _ _ _ _ |- _ =>
          apply matches_sixty_re in H; destruct H as (-> & ? & ?)
      | H : matches millis_re _ _ _ _ _ |- _ =>
          apply matches_millis_re in H; destruct H as (-> & ?)
      end.
    rewrite app_nil_r. unfold timestamp_text, timestamp_fields.
    do 4 eexists. split; [reflexivity|]. split; [|reflexivity]. tauto.
  - intros (h & m & s & ms & -> & (Hh & Hm & Hs & Hms) & ->).
    unfold timestamp_text, timestamp_groups.
    exists [], (h ++ lit ":" ++ m ++ lit ":" ++ s ++ lit "," ++ ms), [].
    split; [reflexivity|]. split; [auto|].
    exists h, (lit ":" ++ m ++ lit ":" ++ s ++ lit "," ++ ms), [(1%nat, h)].
    split; [reflexivity|]. split.
    { exists []. split; [|reflexivity]. apply matches_hours_re. tauto. }
    exists (lit ":"), (m ++ lit ":" ++ s ++ lit "," ++ ms), [(1%nat, h)].
    split; [reflexivity|]. split; [split; reflexivity|].
    exists m, (lit ":" ++ s ++ lit "," ++ ms), [(2%nat, m); (1%nat, h)].
    split; [reflexivity|]. split.
    { eexists. split; [|reflexivity]. apply matches_sixty_re. tauto. }
    exists (lit ":"), (s ++ lit "," ++ ms), [(2%nat, m); (1%nat, h)].
    split; [reflexivity|]. split; [split; reflexivity|].
    exists s, (lit "," ++ ms), [(3%nat, s); (2%nat, m); (1%nat, h)].
    split; [reflexivity|]. split.
    { eexists. split; [|reflexivity]. apply matches_sixty_re. tauto. }
    exists (lit ","), ms, [(3%nat, s); (2%nat, m); (1%nat, h)].
    split; [reflexivity|]. split; [split; reflexivity|].
    exists ms, [], [(4%nat, ms); (3%nat, s); (2%nat, m); (1%nat, h)].
    split; [now rewrite app_nil_r|]. split.
    { eexists. split; [|reflexivity]. apply matches_millis_re. tauto. }
    auto.
Qed.

Lemma fullmatch_some r s st :
  fullmatch r s = Some st ->
  rest st = [] /\ matches r 0 s [] [] (groups st).
Proof.
  unfold fullmatch. intros H. apply find_some in H as [Hin Hrest].
  destruct (rest st) eqn:E; [|discriminate]. split; [reflexivity|].
  apply run_matches in Hin. destruct Hin as (u & Hr & _ & Hd).
  simpl in Hr, Hd. rewrite E in Hr, Hd. rewrite app_nil_r in Hr. now subst u.
Qed.

Lemma fullmatch_exists r s g :
  matches r 0 s [] [] g -> exists st, fullmatch r s = Some st.
Proof.
  intros H. unfold fullmatch.
  destruct (find _ _) as [st|] eqn:E; [now exists st|].
  assert (Hin : In (MState (length s) [] g) (run r (MState 0 s []))).
  { apply run_matches. exists s. simpl. now rewrite app_nil_r. }
  apply (find_none _ _ E) in Hin. discriminate.
Qed.

Lemma digits_prefix_unique (c : ascii) (a a' x x' : str) :
  isdecimal_char c = false ->
  forallb isdecimal_char a = true -> forallb isdecimal_char a' = true ->
  a ++ c :: x = a' ++ c :: x' -> a = a' /\ x = x'.
Proof.
  intros Hc. revert a'.
  induction a as [|d a IH]; intros [|d' a'] Ha Ha' E; simpl in *.
  - now injection E.
  - injection E as -> _. apply andb_true_iff in Ha' as [? _]. congruence.
  - injection E as -> _. apply andb_true_iff in Ha as [? _]. congruence.
  - injection E as -> E. apply andb_true_iff in Ha as [_ Ha].
    apply andb_true_iff in Ha' as [_ Ha'].
    destruct (IH a' Ha Ha' E) as [-> ->]. auto.
Qed.

Lemma timestamp_text_inj h m s ms h' m' s' ms' :
  timestamp_fields h m s ms -> timestamp_fields h' m' s' ms' ->
  timestamp_text h m s ms = timestamp_text h' m' s' ms' ->
  h = h' /\ m = m' /\ s = s' /\ ms = ms'.
Proof.
  unfold timestamp_fields, digits_text, timestamp_text. simpl.
  intros H H' E.
  destruct H as (((_ & Hh) & _) & ((_ & Hm) & _) & ((_ & Hs) & _) & _).
  destruct H' as (((_ & Hh') & _) & ((_ & Hm') & _) & ((_ & Hs') & _) & _).
  apply digits_prefix_unique in E as [-> E]; [|reflexivity|assumption..].
  apply digits_prefix_unique in E as [-> E]; [|reflexivity|assumption..].
  apply digits_prefix_unique in E as [-> E]; [|reflexivity|assumption..].
  auto.
Qed.

Lemma fullmatch_timestamp_re h m s ms :
  timestamp_fields h m s ms ->
  exists st,
    fullmatch timestamp_re (timestamp_text h m s ms) = Some st
    /\ groups st = timestamp_groups h m s ms.
Proof.
  intros F.
  destruct (fullmatch_exists timestamp_re (timestamp_text h m s ms)
              (timestamp_groups h m s ms)) as [st Hst].
  { apply matches_timestamp_re. exists h, m, s, ms. auto. }
  exists st. split; [assumption|].
  apply fullmatch_some in Hst as [_ Hm].
  apply matches_timestamp_re in Hm as (h' & m' & s' & ms' & E & F' & ->).
  apply timestamp_text_inj in E as (-> & -> & -> & ->); auto.
Qed.

(** ** [Timestamp.from_str] *)

Lemma from_str_ok h m s ms :
  timestamp_fields h m s ms ->
  from_str (timestamp_text h m s ms)
  = Ok {| millis := timestamp_value h m s ms |}.
Proof.
  intros F. destruct (fullmatch_timestamp_re h m s ms F) as (st & E & G).
  unfold from_str. rewrite E, G. cbn [timestamp_groups group Nat.eqb].
  destruct F as ((Hh & _) & (Hm & _) & (Hs & _) & Hms).
  rewrite (int_of_str_digits _ _ _ Hh), (int_of_str_digits _ _ _ Hm),
    (int_of_str_digits _ _ _ Hs), (int_of_str_digits _ _ _ Hms) by lia.
  cbn [bind]. reflexivity.
Qed.

Lemma from_str_inv text t :
  from_str text = Ok t ->
  exists h m s ms,
    text = timestamp_text h m s ms /\ timestamp_fields h m s ms
    /\ millis t = timestamp_value h m s ms.
Proof.
  intros H.
  destruct (fullmatch timestamp_re text) as [st|] eqn:E;
    [|unfold from_str in H; rewrite E in H; discriminate].
  apply fullmatch_some in E as [_ Hm].
  apply matches_timestamp_re in Hm as (h & m & s & ms & -> & F & _).
  exists h, m, s, ms. split; [reflexivity|]. split; [assumption|].
  rewrite (from_str_ok _ _ _ _ F) in H. now injection H as <-.
Qed.

Lemma from_str_raise text :
  ~ timestamp_pattern text ->
  from_str text
  = Raise (ValueError [text ++ lit " is not a valid timestamp"]).
Proof.
  intros N. unfold from_str.
  destruct (fullmatch timestamp_re text) as [st|] eqn:E; [|reflexivity].
  exfalso. apply N. apply fullmatch_some in E as [_ Hm].
  apply matches_timestamp_re in Hm as (h & m & s & ms & -> & F & _).
  exists h, m, s, ms. auto.
Qed.

(** C5. [Timestamp.from_str(s)] returns a value exactly when [s] is 1-2
    hour digits of value 0-23, [:], 1-2 minute digits of value 0-59, [:],
    1-2 second digits of value 0-59, [,] and 1-3 millisecond digits, and
    nothing else; the value is then
    [ms + 1000*s + 60000*m + 3600000*h]; for every other string it raises
    the format error (a ValueError). *)
Theorem from_str_spec (text : str) :
  ((exists t, from_str text = Ok t) <-> timestamp_pattern text)
  /\ (forall h m s ms,
         text = timestamp_text h m s ms -> timestamp_fields h m s ms ->
         from_str text
         = Ok {| millis := int_digits ms + 1000 * int_digits s
                           + 60000 * int_digits m + 3600000 * int_digits h |})
  /\ (~ timestamp_pattern text ->
      exists args, from_str text = Raise (ValueError args)).
Proof.
  split; [split|split].
  - intros [t H]. apply from_str_inv in H as (h & m & s & ms & E & F & _).
    exists h, m, s, ms. auto.
  - intros (h & m & s & ms & -> & F). rewrite (from_str_ok _ _ _ _ F). eauto.
  - intros h m s ms -> F. apply (from_str_ok _ _ _ _ F).
  - intros N. rewrite (from_str_raise _ N). eauto.
Qed.

Lemma from_str_spec_witness :
  from_str (lit "1:02:3,45") = Ok {| millis := 3723045 |}
  /\ exists args, from_str (lit "1:60:3,4") = Raise (ValueError args).
Proof.
  split.
  - apply (proj1 (proj2 (from_str_spec (lit "1:02:3,45")))
             (lit "1") (lit "02") (lit "3") (lit "45")).
    + reflexivity.
    + unfold timestamp_fields, digits_text. vm_compute.
      repeat split; try discriminate; repeat constructor.
  - apply (proj2 (proj2 (from_str_spec (lit "1:60:3,4")))).
    intros P. apply (proj1 (from_str_spec (lit "1:60:3,4"))) in P.
    destruct P as [t Ht]. vm_compute in Ht. discriminate.
Defined.

(** ** Printed fields *)

Lemma forall_below (P : Z -> bool) (n : nat) :
  forallb P (map Z.of_nat (seq 0 n)) = true ->
  forall z, 0 <= z < Z.of_nat n -> P z = true.
Proof.
  intros H z Hz. rewrite forallb_forall in H. apply H.
  apply in_map_iff. exists (Z.to_nat z). split; [lia|].
  apply in_seq. lia.
Qed.

Lemma field_ok_2 (n : Z) : 0 <= n < 100 -> field_ok 2 n = true.
Proof. apply (forall_below (field_ok 2) 100). vm_compute. reflexivity. Qed.

Lemma field_ok_3 (n : Z) : 0 <= n < 1000 -> field_ok 3 n = true.
Proof. apply (forall_below (field_ok 3) 1000). vm_compute. reflexivity. Qed.

Lemma field_ok_true (w : nat) (n : Z) :
  field_ok w n = true ->
  length (zfill w (str_of_int n)) = w
  /\ forallb isdecimal_char (zfill w (str_of_int n)) = true
  /\ int_digits (zfill w (str_of_int n)) = n.
Proof.
  unfold field_ok. cbv zeta. rewrite !andb_true_iff, Nat.eqb_eq, Z.eqb_eq.
  tauto.
Qed.

Lemma digits_text_bound_2 (s : str) :
  digits_text 1 2 s -> 0 <= int_digits s <= 99.
Proof.
  intros [[Hlo Hhi] Hd].
  destruct s as [|a [|b [|c s]]]; simpl in Hlo, Hhi; try lia;
    cbn [forallb] in Hd; char_facts;
    rewrite ?int_digits_1, ?int_digits_2; lia.
Qed.

Lemma digits_text_bound_3 (s : str) :
  digits_text 1 3 s -> 0 <= int_digits s <= 999.
Proof.
  intros [[Hlo Hhi] Hd].
  destruct s as [|a [|b [|c [|d s]]]]; simpl in Hlo, Hhi; try lia;
    cbn [forallb] in Hd; char_facts;
    rewrite ?int_digits_1, ?int_digits_2, ?int_digits_3; lia.
Qed.

Lemma int_digits_inj (w : nat) (s s' : str) :
  length s = w -> length s' = w ->
  forallb isdecimal_char s = true -> forallb isdecimal_char s' = true ->
  int_digits s = int_digits s' -> s = s'.
Proof.
  revert w s'. induction s as [|c s IH] using rev_ind; intros w s' L L' D D' E.
  - subst w. destruct s'; [reflexivity | discriminate].
  - destruct s' as [|c' s'] using rev_ind.
    + rewrite length_app in L. simpl in L. subst w. simpl in L'. lia.
    + clear IHs'. rewrite !length_app in *. simpl in L, L'.
      rewrite !forallb_app in *. cbn [forallb] in D, D'.
      rewrite !andb_true_r in *.
      apply andb_true_iff in D as [D1 D2]. apply andb_true_iff in D' as [D1' D2'].
      rewrite !int_digits_app in E. unfold digit_value in E.
      apply isdecimal_char_true in D2, D2'.
      assert (E1 : int_digits s = int_digits s') by lia.
      assert (E2 : ord c = ord c') by lia.
      apply ord_inj in E2. subst c'. f_equal.
      apply (IH (length s) s'); auto. lia.
Qed.

Lemma format_parse_field (w : nat) (s : str) :
  length s = w -> forallb isdecimal_char s = true ->
  field_ok w (int_digits s) = true ->
  zfill w (str_of_int (int_digits s)) = s.
Proof.
  intros L D F. apply field_ok_true in F as (L' & D' & E).
  now apply (int_digits_inj w).
Qed.

(** ** [Timestamp.__str__] *)

Lemma hms_range (t : Timestamp) :
  0 <= millis t < 86400000 ->
  exists h m s ms,
    hms t = (h, m, s, ms)
    /\ 0 <= h <= 23 /\ 0 <= m <= 59 /\ 0 <= s <= 59 /\ 0 <= ms <= 999
    /\ ms + 1000 * s + 60000 * m + 3600000 * h = millis t.
Proof.
  intros H. unfold hms. do 4 eexists. split; [reflexivity|].
  change (60 * 60 * 1000) with 3600000. change (60 * 1000) with 60000.
  Z.div_mod_to_equations. lia.
Qed.

Lemma hms_of_fields (h m s ms : Z) :
  0 <= h -> 0 <= m <= 59 -> 0 <= s <= 59 -> 0 <= ms <= 999 ->
  hms {| millis := ms + 1000 * s + 60000 * m + 3600000 * h |} = (h, m, s, ms).
Proof.
  intros Hh Hm Hs Hms. unfold hms. cbn [millis].
  change (60 * 60 * 1000) with 3600000. change (60 * 1000) with 60000.
  repeat f_equal; Z.div_mod_to_equations; lia.
Qed.

Lemma Timestamp_str_hms (t : Timestamp) (h m s ms : Z) :
  hms t = (h, m, s, ms) ->
  Timestamp_str t
  = timestamp_text (zfill 2 (str_of_int h)) (zfill 2 (str_of_int m))
      (zfill 2 (str_of_int s)) (zfill 3 (str_of_int ms)).
Proof. intros H. unfold Timestamp_str. now rewrite H. Qed.

Lemma printed_fields (h m s ms : Z) :
  0 <= h <= 23 -> 0 <= m <= 59 -> 0 <= s <= 59 -> 0 <= ms <= 999 ->
  timestamp_fields (zfill 2 (str_of_int h)) (zfill 2 (str_of_int m))
    (zfill 2 (str_of_int s)) (zfill 3 (str_of_int ms))
  /\ timestamp_value (zfill 2 (str_of_int h)) (zfill 2 (str_of_int m))
       (zfill 2 (str_of_int s)) (zfill 3 (str_of_int ms))
     = ms + 1000 * s + 60000 * m + 3600000 * h.
Proof.
  intros Hh Hm Hs Hms.
  destruct (field_ok_true 2 h) as (Lh & Dh & Eh); [apply field_ok_2; lia|].
  destruct (field_ok_true 2 m) as (Lm & Dm & Em); [apply field_ok_2; lia|].
  destruct (field_ok_true 2 s) as (Ls & Ds & Es); [apply field_ok_2; lia|].
  destruct (field_ok_true 3 ms) as (Lms & Dms & Ems); [apply field_ok_3; lia|].
  unfold timestamp_fields, timestamp_value, digits_text.
  rewrite Lh, Lm, Ls, Lms, Eh, Em, Es, Ems.
  repeat split; auto; lia.
Qed.

(** C1, as the code has it.  For every Timestamp [t] with
    [0 <= t.millis < 86400000] (below 24 hours), parsing the text of [t]
    gives [t] back. *)
Theorem from_str_of_str (t : Timestamp) :
  0 <= millis t < 86400000 -> from_str (Timestamp_str t) = Ok t.
Proof.
  intros H.
  destruct (hms_range t H) as (h & m & s & ms & E & Hh & Hm & Hs & Hms & V).
  rewrite (Timestamp_str_hms _ _ _ _ _ E).
  destruct (printed_fields h m s ms Hh Hm Hs Hms) as [F Val].
  rewrite (from_str_ok _ _ _ _ F), Val, V. now destruct t.
Qed.

Lemma from_str_of_str_witness :
  from_str (Timestamp_str {| millis := 86399999 |}) = Ok {| millis := 86399999 |}.
Proof. apply from_str_of_str. simpl. lia. Defined.

(** C1, as stated, fails at 24 hours: the text of [Timestamp(86400000)] is
    [24:00:00,000], which [from_str] rejects. *)
Lemma from_str_of_str_24h :
  0 <= millis {| millis := 86400000 |}
  /\ Timestamp_str {| millis := 86400000 |} = lit "24:00:00,000"
  /\ from_str (Timestamp_str {| millis := 86400000 |})
     <> Ok {| millis := 86400000 |}.
Proof.
  split; [simpl; lia|]. split; [reflexivity|]. vm_compute. discriminate.
Qed.

(** C8. For every text [s] in the canonical, fully padded form
    [HH:MM:SS,mmm] (hour 00-23, minute and second 00-59, three millisecond
    digits), [from_str(s)] returns a Timestamp whose text is [s]. *)
Theorem str_of_from_str (text : str) :
  canonical_text text ->
  exists t, from_str text = Ok t /\ Timestamp_str t = text.
Proof.
  intros (h & m & s & ms & -> & F & Lh & Lm & Ls & Lms).
  rewrite (from_str_ok _ _ _ _ F). eexists. split; [reflexivity|].
  destruct F as ((Dh & Hh) & (Dm & Hm) & (Ds & Hs) & Dms).
  pose proof (digits_text_bound_3 ms Dms) as Hms.
  unfold timestamp_value.
  rewrite (Timestamp_str_hms _ (int_digits h) (int_digits m) (int_digits s)
             (int_digits ms)) by (apply hms_of_fields; lia).
  destruct Dh as [_ Dh], Dm as [_ Dm], Ds as [_ Ds], Dms as [_ Dms].
  rewrite (format_parse_field 2 h), (format_parse_field 2 m),
    (format_parse_field 2 s), (format_parse_field 3 ms);
    auto; (apply field_ok_2 || apply field_ok_3); lia.
Qed.

Lemma str_of_from_str_witness :
  exists t, from_str (lit "23:59:07,040") = Ok t
            /\ Timestamp_str t = lit "23:59:07,040".
Proof.
  apply str_of_from_str.
  exists (lit "23"), (lit "59"), (lit "07"), (lit "040").
  split; [reflexivity|]. unfold timestamp_fields, digits_text. vm_compute.
  repeat split; try discriminate; repeat constructor.
Defined.

Lemma from_str_range (text : str) (t : Timestamp) :
  from_str text = Ok t -> 0 <= millis t <= 86399999.
Proof.
  intros H. apply from_str_inv in H as (h & m & s & ms & _ & F & ->).
  destruct F as ((_ & Hh) & (_ & Hm) & (_ & Hs) & Dms).
  apply digits_text_bound_3 in Dms. unfold timestamp_value. lia.
Qed.

(** C10. Every Timestamp returned by [from_str] has
    [0 <= millis <= 86399999], so its text starts with an hour field of two
    characters; [delayed_by] returns a Timestamp of 86400000 or more as soon
    as [millis + offset] is that large, and no text parses to such a
    Timestamp. *)
Theorem from_str_below_24h :
  (forall text t,
      from_str text = Ok t ->
      0 <= millis t <= 86399999
      /\ length (hours_field t) = 2%nat
      /\ (exists rest, Timestamp_str t = hours_field t ++ lit ":" ++ rest)
      /\ length (Timestamp_str t) = 12%nat)
  /\ (forall t d clamp_to_zero,
         86400000 <= millis t + d ->
         exists t',
           delayed_by t d clamp_to_zero = Ok t'
           /\ 86400000 <= millis t'
           /\ forall text, from_str text <> Ok t').
Proof.
  split.
  - intros text t H. apply from_str_range in H. split; [assumption|].
    destruct (hms_range t) as (h & m & s & ms & E & Hh & Hm & Hs & Hms & V);
      [lia|].
    assert (Eh : millis t / (60 * 60 * 1000) = h).
    { apply (f_equal (fun p => fst (fst (fst p)))) in E. exact E. }
    unfold hours_field. rewrite Eh.
    destruct (field_ok_true 2 h) as (Lh & _); [apply field_ok_2; lia|].
    destruct (field_ok_true 2 m) as (Lm & _); [apply field_ok_2; lia|].
    destruct (field_ok_true 2 s) as (Ls & _); [apply field_ok_2; lia|].
    destruct (field_ok_true 3 ms) as (Lms & _); [apply field_ok_3; lia|].
    split; [assumption|]. rewrite (Timestamp_str_hms _ _ _ _ _ E).
    unfold timestamp_text. split; [eexists; reflexivity|].
    rewrite !length_app, Lh, Lm, Ls, Lms. reflexivity.
  - intros t d c H. exists {| millis := millis t + d |}. split.
    + apply delayed_by_nonneg. lia.
    + split; [simpl; lia|]. intros text Ht.
      apply from_str_range in Ht. simpl in Ht. lia.
Qed.

Lemma from_str_below_24h_witness :
  (0 <= millis {| millis := 86399999 |} <= 86399999
   /\ length (hours_field {| millis := 86399999 |}) = 2%nat)
  /\ exists t',
      delayed_by {| millis := 86399999 |} 1 false = Ok t'
      /\ 86400000 <= millis t'.
Proof.
  split.
  - destruct (proj1 from_str_below_24h (lit "23:59:59,999")
                {| millis := 86399999 |}) as (H1 & H2 & _).
    + vm_compute. reflexivity.
    + split; assumption.
  - destruct (proj2 from_str_below_24h {| millis := 86399999 |} 1 false)
      as (t' & H1 & H2 & _).
    + simpl. lia.
    + exists t'. split; assumption.
Defined.

(** ** [strip] and [split] *)

Lemma in_lstrip (c : ascii) (s : str) :
  In c s -> isspace c = true \/ In c (lstrip s).
Proof.
  induction s as [|x s IH]; simpl; [tauto|].
  intros [->|H].
  - destruct (isspace c) eqn:E; [auto | right; now left].
  - destruct (isspace x); [auto | right; now right].
Qed.

Lemma in_strip (c : ascii) (s : str) :
  In c s -> isspace c = true \/ In c (strip s).
Proof.
  intros H. apply in_lstrip in H as [H|H]; [auto|].
  unfold strip, rstrip. apply in_rev, in_lstrip in H as [H|H]; [auto|].
  right. now apply in_rev in H.
Qed.

Lemma startswith_arrow_other (c : ascii) (s : str) :
  c <> "-"%char -> startswith arrow (c :: s) = false.
Proof.
  intros H. change arrow with ["-"; "-"; ">"]%char. cbn [startswith].
  destruct (Ascii.eqb_spec "-" c) as [E|E]; [congruence | reflexivity].
Qed.

Lemma split_from_no_dash (s : str) :
  Forall (fun c => c <> "-"%char) s ->
  forall cur, split_from arrow 0 cur s = [rev cur ++ s].
Proof.
  induction 1 as [|c s Hc _ IH]; intros cur; cbn [split_from].
  - now rewrite app_nil_r.
  - rewrite (startswith_arrow_other c s Hc), IH. simpl.
    now rewrite <- app_assoc.
Qed.

Lemma split_from_arrow (a b : str) :
  Forall (fun c => c <> "-"%char) a ->
  forall cur,
    split_from arrow 0 cur (a ++ arrow ++ b)
    = (rev cur ++ a) :: split_from arrow 0 [] b.
Proof.
  induction 1 as [|c s Hc _ IH]; intros cur.
  - rewrite app_nil_r. reflexivity.
  - cbn [app split_from]. rewrite (startswith_arrow_other c _ Hc), IH. simpl.
    now rewrite <- app_assoc.
Qed.

Lemma split_two_timestamps (a b : str) :
  Forall (fun c => c <> "-"%char) a -> Forall (fun c => c <> "-"%char) b ->
  split arrow (a ++ arrow ++ b) = [a; b].
Proof.
  intros Ha Hb. unfold split.
  now rewrite (split_from_arrow a b Ha), (split_from_no_dash b Hb).
Qed.

Lemma digits_no_dash (s : str) :
  forallb isdecimal_char s = true -> Forall (fun c => c <> "-"%char) s.
Proof.
  intros H. apply Forall_forall. intros c Hc.
  rewrite forallb_forall in H. apply H in Hc. intros ->. discriminate.
Qed.

Lemma from_str_no_dash (a : str) (t : Timestamp) :
  from_str (strip a) = Ok t -> Forall (fun c => c <> "-"%char) a.
Proof.
  intros H. apply from_str_inv in H as (h & m & s & ms & E & F & _).
  destruct F as (((_ & Hh) & _) & ((_ & Hm) & _) & ((_ & Hs) & _) & (_ & Hms)).
  apply digits_no_dash in Hh, Hm, Hs, Hms.
  assert (G : Forall (fun c => c <> "-"%char) (strip a)).
  { rewrite E. unfold timestamp_text.
    repeat (apply Forall_app; split); auto;
      repeat constructor; discriminate. }
  apply Forall_forall. intros c Hc. apply in_strip in Hc as [Hc|Hc].
  - intros ->. discriminate.
  - rewrite Forall_forall in G. now apply G.
Qed.

(** ** The parser *)

Lemma parse_lines_app (v : Locals.t) (pre more : list str) :
  parse_lines v (pre ++ more)
  = (v' <- parse_lines v pre;; parse_lines v' more).
Proof.
  revert v. induction pre as [|l pre IH]; intros v; simpl; [reflexivity|].
  destruct (parse_line v l); simpl; [apply IH | reflexivity].
Qed.

Lemma length_zero_iff_nil {A} (l : list A) :
  Nat.eqb (length l) 0 = true <-> l = [].
Proof. destruct l; simpl; split; congruence. Qed.

Lemma length_zero_false {A} (l : list A) :
  l <> [] -> Nat.eqb (length l) 0 = false.
Proof. destruct l; simpl; congruence. Qed.

Lemma isdigit_decimal (s : str) :
  s <> [] -> forallb isdecimal_char s = true -> isdigit s = true.
Proof.
  intros N H. unfold isdigit. destruct s; [congruence|].
  rewrite forallb_forall in *. intros c Hc. unfold isdigit_char.
  now rewrite (H c Hc).
Qed.

Lemma parse_number_line (v : Locals.t) (line : str) :
  Locals.state v = NEW_SUBTITLE ->
  strip line <> [] -> forallb isdecimal_char (strip line) = true ->
  Z.of_nat (length (strip line)) <= max_str_digits ->
  parse_line v line
  = Ok (Locals.Build TIMESTAMPS (Locals.subtitles v)
          (Some (int_digits (strip line)))
          (Locals.start v) (Locals.end_ v) (Locals.text v)).
Proof.
  intros S N D L. unfold parse_line. rewrite S, (length_zero_false _ N).
  rewrite (isdigit_decimal _ N D). cbn [negb].
  now rewrite (int_of_str_decimal _ N D L).
Qed.

Lemma parse_long_number_line (v : Locals.t) (line : str) :
  Locals.state v = NEW_SUBTITLE ->
  forallb isdecimal_char (strip line) = true ->
  max_str_digits < Z.of_nat (length (strip line)) ->
  parse_line v line = Raise (int_limit_error (length (strip line))).
Proof.
  intros S D L. unfold parse_line. rewrite S.
  assert (N : strip line <> []).
  { intros E. rewrite E in L. unfold max_str_digits in L. simpl in L. lia. }
  rewrite (length_zero_false _ N), (isdigit_decimal _ N D). cbn [negb].
  now rewrite (int_of_str_long _ D L).
Qed.

Lemma parse_timestamps_line (v : Locals.t) (line a b : str) t1 t2 :
  Locals.state v = TIMESTAMPS ->
  strip line = a ++ arrow ++ b ->
  from_str (strip a) = Ok t1 -> from_str (strip b) = Ok t2 ->
  parse_line v line
  = Ok (Locals.Build TEXT (Locals.subtitles v) (Locals.number v)
          (Some t1) (Some t2) (Locals.text v)).
Proof.
  intros S E H1 H2. unfold parse_line. rewrite S, E.
  rewrite split_two_timestamps by eauto using from_str_no_dash.
  cbn [length Nat.eqb negb nth]. now rewrite H1, H2.
Qed.

Lemma parse_text_lines (lines : list str) :
  Forall (fun l => strip l <> []) lines ->
  forall subs n s e txt,
    parse_lines (Locals.Build TEXT subs n s e txt) lines
    = Ok (Locals.Build TEXT subs n s e (txt ++ map strip lines)).
Proof.
  induction 1 as [|l lines Hl _ IH]; intros subs n s e txt; simpl.
  - now rewrite app_nil_r.
  - unfold parse_line. cbn [Locals.state]. rewrite (length_zero_false _ Hl).
    cbn [bind Locals.subtitles Locals.number Locals.start Locals.end_
           Locals.text].
    rewrite IH, <- app_assoc. reflexivity.
Qed.

Lemma parse_block (block : list str) (r : Subtitle) (subs : list Subtitle) :
  wf_block block r ->
  parse_lines (between_records subs) block
  = Ok (Locals.Build TEXT subs (Some (number r)) (Some (start r))
          (Some (end_ r)) (text r))
    /\ text r <> [].
Proof.
  intros [nl tl txt a b t1 t2 N D L E H1 H2 NE T]. split.
  - cbn [parse_lines].
    rewrite (parse_number_line (between_records subs) nl eq_refl N D L).
    cbn [bind].
    erewrite (parse_timestamps_line _ tl a b t1 t2); [|reflexivity|eassumption..].
    cbn [bind between_records Locals.subtitles Locals.number Locals.text].
    now rewrite (parse_text_lines txt T).
  - simpl. destruct txt; [congruence | discriminate].
Qed.

Lemma parse_blank_after_text (subs : list Subtitle) n s e txt (blank : str) :
  strip blank = [] -> txt <> [] ->
  parse_line (Locals.Build TEXT subs (Some n) (Some s) (Some e) txt) blank
  = Ok (between_records (subs ++ [Build_Subtitle n s e txt])).
Proof.
  intros B T. unfold parse_line. rewrite B. cbn [Locals.state length Nat.eqb].
  cbn [Locals.text]. now rewrite (length_zero_false _ T).
Qed.

Lemma parse_wf_doc (file : list str) (rs : list Subtitle) :
  wf_doc file rs ->
  forall subs,
    (v <- parse_lines (between_records subs) file;; parse_end v)
    = Ok (subs ++ rs).
Proof.
  induction 1 as [|block r B|block r blank more rs B Hb _ IH]; intros subs.
  - simpl. now rewrite app_nil_r.
  - destruct (parse_block block r subs B) as [-> T]. cbn [bind].
    unfold parse_end. cbn [Locals.state Locals.text].
    rewrite (length_zero_false _ T). now destruct r.
  - rewrite parse_lines_app.
    destruct (parse_block block r subs B) as [-> T]. cbn [bind parse_lines].
    rewrite (parse_blank_after_text _ _ _ _ _ _ Hb T). cbn [bind].
    rewrite IH, <- app_assoc. now destruct r.
Qed.

(** C3, as the code has it.  A document of N well-formed blocks, each
    with a number line of at most 4300 digits, separated by single blank
    lines, with or without a blank line at the end, is parsed into its N
    records, in order: each has the number of its block, its two
    timestamps and its trimmed text lines in order; a block with two text
    lines gives a record with both, in order. *)
Theorem parse_srt_file_well_formed :
  (forall file rs, wf_doc file rs -> parse_srt_file file = Ok rs)
  /\ (forall number_line timestamps_line l1 l2 r,
         wf_block [number_line; timestamps_line; l1; l2] r ->
         text r = [strip l1; strip l2]
         /\ parse_srt_file [number_line; timestamps_line; l1; l2] = Ok [r]).
Proof.
  assert (G : forall file rs, wf_doc file rs -> parse_srt_file file = Ok rs).
  { intros file rs H. unfold parse_srt_file.
    apply (parse_wf_doc file rs H []). }
  split; [exact G|].
  intros nl tl l1 l2 r B. split.
  - inversion B. reflexivity.
  - apply G. now apply wf_doc_last.
Qed.

Lemma example_block_1 :
  wf_block [ nl "1"; nl "00:00:01,000 --> 00:00:02,000"; nl "Hello";
             nl "  there " ]
    {| number := 1; start := {| millis := 1000 |};
       end_ := {| millis := 2000 |}; text := [lit "Hello"; lit "there"] |}.
Proof.
  apply (wf_block_intro (nl "1") (nl "00:00:01,000 --> 00:00:02,000")
           [nl "Hello"; nl "  there "] (lit "00:00:01,000 ")
           (lit " 00:00:02,000") {| millis := 1000 |} {| millis := 2000 |});
    try (vm_compute; reflexivity); try (vm_compute; discriminate).
  repeat constructor; vm_compute; discriminate.
Defined.

Lemma example_block_2 :
  wf_block [ nl "2"; nl "00:00:05,000 --> 00:00:06,000"; lit "World" ]
    {| number := 2; start := {| millis := 5000 |};
       end_ := {| millis := 6000 |}; text := [lit "World"] |}.
Proof.
  apply (wf_block_intro (nl "2") (nl "00:00:05,000 --> 00:00:06,000")
           [lit "World"] (lit "00:00:05,000 ")
           (lit " 00:00:06,000") {| millis := 5000 |} {| millis := 6000 |});
    try (vm_compute; reflexivity); try (vm_compute; discriminate).
  repeat constructor; vm_compute; discriminate.
Defined.

Lemma parse_srt_file_well_formed_witness :
  parse_srt_file example_doc = Ok example_records
  /\ parse_srt_file
       [ nl "1"; nl "00:00:01,000 --> 00:00:02,000"; nl "Hello";
         nl "  there " ]
     = Ok [ {| number := 1; start := {| millis := 1000 |};
               end_ := {| millis := 2000 |};
               text := [lit "Hello"; lit "there"] |} ].
Proof.
  split.
  - apply (proj1 parse_srt_file_well_formed).
    apply (wf_doc_cons _ _ (nl "") _ _ example_block_1); [reflexivity|].
    apply wf_doc_last. exact example_block_2.
  - apply (proj2 parse_srt_file_well_formed). exact example_block_1.
Defined.

(** C3, as stated, fails: a block whose number line has 4301 decimal
    digits, then a line with two valid timestamps and a text line, is
    rejected with the ValueError of [int]. *)
Lemma parse_srt_file_long_number :
  forallb isdecimal_char (strip (nth 0 long_number_doc [])) = true
  /\ length (strip (nth 0 long_number_doc [])) = 4301%nat
  /\ parse_srt_file long_number_doc = Raise (int_limit_error 4301)
  /\ ~ (exists rs, parse_srt_file long_number_doc = Ok rs).
Proof.
  assert (E : parse_srt_file long_number_doc = Raise (int_limit_error 4301))
    by (vm_compute; reflexivity).
  split; [vm_compute; reflexivity|]. split; [vm_compute; reflexivity|].
  split; [exact E|]. intros [rs H]. rewrite E in H. discriminate.
Qed.

Lemma initial_locals_ok : locals_ok initial_locals.
Proof.
  unfold locals_ok, initial_locals. simpl.
  split; [reflexivity|]. split; [constructor | discriminate].
Qed.

Lemma int_of_str_nonneg (s : str) (n : Z) : int_of_str s = Ok n -> 0 <= n.
Proof.
  intros H. apply int_of_str_inv in H as (_ & D & _ & ->).
  now apply int_digits_nonneg.
Qed.

Lemma parse_line_ok (v v' : Locals.t) (line : str) :
  locals_ok v -> parse_line v line = Ok v' -> locals_ok v'.
Proof.
  unfold locals_ok, parse_line. intros (Hst & Hsubs & Hn).
  destruct (Locals.state v) eqn:S.
  - destruct (Nat.eqb (length (strip line)) 0).
    + intros [= <-]. rewrite S. auto.
    + destruct (negb (isdigit (strip line))); [discriminate|].
      destruct (int_of_str (strip line)) as [n|] eqn:E; [|discriminate].
      cbn [bind]. intros [= <-]. simpl. apply int_of_str_nonneg in E.
      repeat split; auto; [discriminate | now intros k [= <-]].
  - destruct (negb (Nat.eqb (length (split arrow (strip line))) 2));
      [discriminate|].
    destruct (from_str _) as [t1|]; [|discriminate]. cbn [bind].
    destruct (from_str _) as [t2|]; [|discriminate]. cbn [bind].
    intros [= <-]. simpl. destruct Hst as [_ Hnum].
    repeat split; auto; discriminate.
  - destruct (Nat.eqb (length (strip line)) 0).
    + destruct (Nat.eqb (length (Locals.text v)) 0); [discriminate|].
      destruct (Locals.number v) as [n|]; [|discriminate].
      destruct (Locals.start v) as [s|]; [|discriminate].
      destruct (Locals.end_ v) as [e|]; [|discriminate].
      intros [= <-]. simpl. split; [reflexivity|].
      split; [|discriminate].
      apply Forall_app. split; [assumption|]. repeat constructor. simpl. auto.
    + intros [= <-]. simpl. auto.
Qed.

Lemma parse_lines_ok (file : list str) :
  forall v v', locals_ok v -> parse_lines v file = Ok v' -> locals_ok v'.
Proof.
  induction file as [|l file IH]; intros v v' Hv; simpl.
  - now intros [= <-].
  - destruct (parse_line v l) as [v1|] eqn:E; [|discriminate]. cbn [bind].
    apply IH. now apply (parse_line_ok v v1 l).
Qed.

Lemma parse_end_ok (v : Locals.t) (rs : list Subtitle) :
  locals_ok v -> parse_end v = Ok rs -> Forall (fun r => 0 <= number r) rs.
Proof.
  unfold locals_ok, parse_end. intros (_ & Hsubs & Hn).
  destruct (Locals.state v).
  - now intros [= <-].
  - discriminate.
  - destruct (Nat.eqb (length (Locals.text v)) 0); [discriminate|].
    destruct (Locals.number v) as [n|]; [|discriminate].
    destruct (Locals.start v) as [s|]; [|discriminate].
    destruct (Locals.end_ v) as [e|]; [|discriminate].
    intros [= <-]. apply Forall_app. split; [assumption|].
    repeat constructor. simpl. auto.
Qed.

Lemma initial_locals_bounded : locals_bounded initial_locals.
Proof. split; [constructor | discriminate]. Qed.

Lemma parse_line_bounded (v v' : Locals.t) (line : str) :
  locals_bounded v -> parse_line v line = Ok v' -> locals_bounded v'.
Proof.
  unfold locals_bounded, parse_line. intros (Hsubs & Hn).
  destruct (Locals.state v).
  - destruct (Nat.eqb (length (strip line)) 0).
    + intros [= <-]. auto.
    + destruct (negb (isdigit (strip line))); [discriminate|].
      destruct (int_of_str (strip line)) as [n|] eqn:E; [|discriminate].
      cbn [bind]. intros [= <-]. simpl. apply int_of_str_bound in E.
      split; [assumption|]. intros k [= <-]. lia.
  - destruct (negb (Nat.eqb (length (split arrow (strip line))) 2));
      [discriminate|].
    destruct (from_str _) as [t1|]; [|discriminate]. cbn [bind].
    destruct (from_str _) as [t2|]; [|discriminate]. cbn [bind].
    intros [= <-]. simpl. auto.
  - destruct (Nat.eqb (length (strip line)) 0).
    + destruct (Nat.eqb (length (Locals.text v)) 0); [discriminate|].
      destruct (Locals.number v) as [n|]; [|discriminate].
      destruct (Locals.start v) as [s|]; [|discriminate].
      destruct (Locals.end_ v) as [e|]; [|discriminate].
      intros [= <-]. simpl. split; [|discriminate].
      apply Forall_app. split; [assumption|]. repeat constructor. simpl. auto.
    + intros [= <-]. simpl. auto.
Qed.

Lemma parse_lines_bounded (file : list str) :
  forall v v',
    locals_bounded v -> parse_lines v file = Ok v' -> locals_bounded v'.
Proof.
  induction file as [|l file IH]; intros v v' Hv; simpl.
  - now intros [= <-].
  - destruct (parse_line v l) as [v1|] eqn:E; [|discriminate]. cbn [bind].
    apply IH. now apply (parse_line_bounded v v1 l).
Qed.

Lemma parse_end_bounded (v : Locals.t) (rs : list Subtitle) :
  locals_bounded v -> parse_end v = Ok rs ->
  Forall (fun r => number r < str_limit) rs.
Proof.
  unfold locals_bounded, parse_end. intros (Hsubs & Hn).
  destruct (Locals.state v).
  - now intros [= <-].
  - discriminate.
  - destruct (Nat.eqb (length (Locals.text v)) 0); [discriminate|].
    destruct (Locals.number v) as [n|]; [|discriminate].
    destruct (Locals.start v) as [s|]; [|discriminate].
    destruct (Locals.end_ v) as [e|]; [|discriminate].
    intros [= <-]. apply Forall_app. split; [assumption|].
    repeat constructor. simpl. auto.
Qed.

Lemma parse_numbers_bounded (file : list str) (rs : list Subtitle) :
  parse_srt_file file = Ok rs ->
  Forall (fun r => 0 <= number r < str_limit) rs.
Proof.
  unfold parse_srt_file.
  destruct (parse_lines initial_locals file) as [v|] eqn:E; [|discriminate].
  cbn [bind]. intros H.
  pose proof (parse_end_ok v rs
                (parse_lines_ok file _ _ initial_locals_ok E) H) as A.
  pose proof (parse_end_bounded v rs
                (parse_lines_bounded file _ _ initial_locals_bounded E) H)
    as B.
  rewrite Forall_forall in *. intros r Hr.
  specialize (A r Hr). specialize (B r Hr). simpl in *. lia.
Qed.

Lemma parse_notice_ok (file : list str) (rs : list Subtitle) (d : Z) :
  parse_srt_file file = Ok rs -> Forall (notice_ok d) rs.
Proof.
  intros H. eapply Forall_impl; [|exact (parse_numbers_bounded file rs H)].
  intros r Hr _. simpl in Hr. lia.
Qed.

(** C9, as the code has it.  Every record returned by [parse_srt_file] has
    a number that is not negative (a number line [0] gives the number 0),
    and every record returned by [delay_subtitles] has a number of at
    least 1. *)
Theorem numbers_of_records :
  (forall file rs,
      parse_srt_file file = Ok rs -> Forall (fun r => 0 <= number r) rs)
  /\ (forall subs d rs,
         snd (delay_subtitles subs d) = Ok rs ->
         Forall (fun r => 1 <= number r) rs).
Proof.
  split.
  - intros file rs. unfold parse_srt_file.
    destruct (parse_lines initial_locals file) as [v|] eqn:E; [|discriminate].
    cbn [bind]. apply parse_end_ok.
    apply (parse_lines_ok file initial_locals v initial_locals_ok E).
  - intros subs d rs H. apply delay_subtitles_returns in H as [_ ->].
    generalize (filter (survives d) subs) 0%nat.
    intros l. induction l as [|sub l IH]; intros i; simpl; constructor.
    + simpl. lia.
    + apply IH.
Qed.

Lemma numbers_of_records_witness :
  Forall (fun r => 0 <= number r) example_records
  /\ Forall (fun r => 1 <= number r) example_records.
Proof.
  split.
  - apply (proj1 numbers_of_records example_doc). vm_compute. reflexivity.
  - apply (proj2 numbers_of_records example_records 0). vm_compute.
    reflexivity.
Defined.

(** C9, as stated, fails for the parser: a block whose number line is [0]
    gives a record with number 0. *)
Lemma parse_srt_file_number_zero :
  parse_srt_file zero_doc
  = Ok [ {| number := 0; start := {| millis := 1000 |};
            end_ := {| millis := 2000 |}; text := [lit "Hi"] |} ]
  /\ ~ (forall file rs,
           parse_srt_file file = Ok rs -> Forall (fun r => 1 <= number r) rs).
Proof.
  assert (E : parse_srt_file zero_doc
              = Ok [ {| number := 0; start := {| millis := 1000 |};
                        end_ := {| millis := 2000 |}; text := [lit "Hi"] |} ])
    by (vm_compute; reflexivity).
  split; [exact E|]. intros H. apply H in E.
  inversion E as [|r l Hr _]. simpl in Hr. lia.
Qed.

(** ** Rejected documents *)

Lemma timestamp_text_unique h m s ms h' m' s' ms' :
  forallb isdecimal_char h = true -> forallb isdecimal_char m = true ->
  forallb isdecimal_char s = true ->
  forallb isdecimal_char h' = true -> forallb isdecimal_char m' = true ->
  forallb isdecimal_char s' = true ->
  timestamp_text h m s ms = timestamp_text h' m' s' ms' ->
  h = h' /\ m = m' /\ s = s' /\ ms = ms'.
Proof.
  unfold timestamp_text. simpl. intros Hh Hm Hs Hh' Hm' Hs' E.
  apply digits_prefix_unique in E as [-> E]; [|reflexivity|assumption..].
  apply digits_prefix_unique in E as [-> E]; [|reflexivity|assumption..].
  apply digits_prefix_unique in E as [-> E]; [|reflexivity|assumption..].
  auto.
Qed.

Lemma out_of_range_no_pattern (text : str) :
  out_of_range text -> ~ timestamp_pattern text.
Proof.
  intros (h & m & s & ms & -> & Hh & Hm & Hs & Hms & R)
         (h' & m' & s' & ms' & E & F).
  destruct F as (((_ & Dh) & Vh) & ((_ & Dm) & Vm) & ((_ & Ds) & Vs) & Dms).
  apply timestamp_text_unique in E as (-> & -> & -> & ->); auto.
  apply digits_text_bound_3 in Dms. lia.
Qed.

Lemma from_str_cases (text : str) :
  (exists t, from_str text = Ok t) \/ raises_ValueError (from_str text).
Proof.
  destruct (fullmatch timestamp_re text) as [st|] eqn:E.
  - left. apply fullmatch_some in E as [_ Hm].
    apply matches_timestamp_re in Hm as (h & m & s & ms & -> & F & _).
    rewrite (from_str_ok _ _ _ _ F). eauto.
  - right. unfold raises_ValueError, from_str. rewrite E. eauto.
Qed.

Lemma from_str_out_of_range (text : str) :
  out_of_range text -> raises_ValueError (from_str text).
Proof.
  intros H. apply out_of_range_no_pattern in H.
  rewrite (from_str_raise _ H). unfold raises_ValueError. eauto.
Qed.

Lemma parse_lines_raise (v : Locals.t) (line : str) (more : list str) :
  raises_ValueError (parse_line v line) ->
  raises_ValueError (parse_lines v (line :: more)).
Proof. intros [args E]. simpl. rewrite E. exists args. reflexivity. Qed.

Lemma parse_bad_number (v : Locals.t) (line : str) (c : ascii) :
  Locals.state v = NEW_SUBTITLE ->
  In c (strip line) -> isdecimal_char c = false ->
  raises_ValueError (parse_line v line).
Proof.
  intros S Hc Hd. unfold parse_line, raises_ValueError. rewrite S.
  destruct (strip line) as [|x s] eqn:E; [contradiction|].
  cbn [length Nat.eqb].
  destruct (isdigit (x :: s)); cbn [negb]; [|eauto].
  destruct (int_of_str (x :: s)) as [n|e] eqn:I.
  - exfalso. apply int_of_str_inv in I as (_ & G & _).
    rewrite forallb_forall in G. apply G in Hc. congruence.
  - cbn [bind]. unfold int_of_str in I.
    destruct (max_str_digits <? Z.of_nat (leading_decimals (x :: s)));
      [injection I as <-; unfold int_limit_error; eauto|].
    destruct (forallb isdecimal_char (x :: s)); [discriminate|].
    injection I as <-. eauto.
Qed.

Lemma parse_bad_separator (v : Locals.t) (line : str) :
  Locals.state v = TIMESTAMPS ->
  length (split arrow (strip line)) <> 2%nat ->
  raises_ValueError (parse_line v line).
Proof.
  intros S H. unfold parse_line, raises_ValueError. rewrite S.
  apply Nat.eqb_neq in H. rewrite H. cbn [negb]. eauto.
Qed.

Lemma parse_bad_timestamp (v : Locals.t) (line a b : str) :
  Locals.state v = TIMESTAMPS ->
  split arrow (strip line) = [a; b] ->
  out_of_range (strip a) \/ out_of_range (strip b) ->
  raises_ValueError (parse_line v line).
Proof.
  intros S E H. unfold parse_line. rewrite S, E.
  cbn [length Nat.eqb negb nth].
  destruct (from_str_cases (strip a)) as [[t1 H1]|[args H1]].
  - rewrite H1. cbn [bind]. destruct H as [H|H].
    + apply from_str_out_of_range in H as [args H]. congruence.
    + apply from_str_out_of_range in H as [args H]. rewrite H.
      exists args. reflexivity.
  - rewrite H1. exists args. reflexivity.
Qed.

Lemma expecting_app (pre more : list str) (st : ParserState) :
  expecting pre st ->
  exists v,
    locals_ok v /\ Locals.state v = st
    /\ parse_lines initial_locals pre = Ok v
    /\ parse_srt_file (pre ++ more)
       = (v' <- parse_lines v more;; parse_end v').
Proof.
  intros (v & E & S). exists v.
  split; [apply (parse_lines_ok pre _ _ initial_locals_ok E)|].
  split; [assumption|]. split; [assumption|].
  unfold parse_srt_file. now rewrite parse_lines_app, E.
Qed.

Lemma timestamps_then_no_text (pre : list str) (line : str) :
  expecting pre TIMESTAMPS -> expecting (pre ++ [line]) TEXT ->
  exists v,
    parse_lines initial_locals (pre ++ [line]) = Ok v
    /\ Locals.state v = TEXT /\ Locals.text v = [].
Proof.
  intros H (v' & E' & S').
  destruct (expecting_app pre [line] _ H) as (v & (Hst & _) & S & E & _).
  exists v'. split; [assumption|]. split; [assumption|].
  rewrite parse_lines_app, E in E'. cbn [bind parse_lines] in E'.
  rewrite S in Hst. destruct Hst as [T _].
  unfold parse_line in E'. rewrite S in E'.
  destruct (negb _); [discriminate|].
  destruct (from_str _); [|discriminate]. cbn [bind] in E'.
  destruct (from_str _); [|discriminate]. cbn [bind] in E'.
  injection E' as <-. exact T.
Qed.

(** C6. [parse_srt_file] raises an error, and so returns no records, when
    a number line has a character that is not a decimal digit, when a
    timestamps line does not split on [-->] into exactly two parts, when a
    timestamp has a part out of range, when no text line follows the
    timestamps line before a blank line or the end of the input, and when
    the input ends where a timestamps line is expected. *)
Theorem parse_srt_file_rejects (file : list str) :
  bad_input file ->
  raises_ValueError (parse_srt_file file)
  /\ forall rs, parse_srt_file file <> Ok rs.
Proof.
  intros H.
  assert (G : raises_ValueError (parse_srt_file file)).
  { destruct H as [pre line c more H Hc Hd|pre line more H Hl
                  |pre line a b more H Hs Hr|pre tl blank more H H' Hb
                  |pre tl H H'|pre H].
    - destruct (expecting_app pre (line :: more) _ H) as (v & _ & S & _ & ->).
      destruct (parse_lines_raise v line more
                  (parse_bad_number v line c S Hc Hd)) as [args ->].
      exists args. reflexivity.
    - destruct (expecting_app pre (line :: more) _ H) as (v & _ & S & _ & ->).
      destruct (parse_lines_raise v line more
                  (parse_bad_separator v line S Hl)) as [args ->].
      exists args. reflexivity.
    - destruct (expecting_app pre (line :: more) _ H) as (v & _ & S & _ & ->).
      destruct (parse_lines_raise v line more
                  (parse_bad_timestamp v line a b S Hs Hr)) as [args ->].
      exists args. reflexivity.
    - destruct (timestamps_then_no_text pre tl H H') as (v & E & S & T).
      unfold parse_srt_file.
      change (pre ++ tl :: blank :: more)
        with (pre ++ [tl] ++ blank :: more).
      rewrite app_assoc, parse_lines_app, E. cbn [bind parse_lines].
      unfold parse_line. rewrite S, Hb, T. simpl. eexists. reflexivity.
    - destruct (timestamps_then_no_text pre tl H H') as (v & E & S & T).
      unfold parse_srt_file. rewrite E. cbn [bind].
      unfold parse_end. rewrite S, T. simpl. eexists. reflexivity.
    - destruct H as (v & E & S). unfold parse_srt_file. rewrite E.
      cbn [bind]. unfold parse_end. rewrite S. eexists. reflexivity. }
  split; [exact G|]. intros rs E. destruct G as [args G]. congruence.
Qed.

Lemma parse_srt_file_rejects_witness :
  raises_ValueError (parse_srt_file [nl "1a"; nl "x"])
  /\ raises_ValueError
       (parse_srt_file [nl "1"; nl "00:00:01,000 -> 00:00:02,000"; nl "x"])
  /\ raises_ValueError
       (parse_srt_file [nl "1"; nl "00:60:01,000 --> 00:00:02,000"; nl "x"])
  /\ raises_ValueError
       (parse_srt_file
          [nl "1"; nl "00:00:01,000 --> 00:00:02,000"; nl ""; nl "2"])
  /\ raises_ValueError
       (parse_srt_file [nl "1"; nl "00:00:01,000 --> 00:00:02,000"])
  /\ raises_ValueError (parse_srt_file truncated_doc).
Proof.
  assert (E0 : expecting [] NEW_SUBTITLE)
    by (eexists; split; vm_compute; reflexivity).
  assert (E1 : expecting [nl "1"] TIMESTAMPS)
    by (eexists; split; vm_compute; reflexivity).
  assert (E2 : expecting ([nl "1"] ++ [nl "00:00:01,000 --> 00:00:02,000"])
                 TEXT)
    by (eexists; split; vm_compute; reflexivity).
  assert (E3 : expecting truncated_doc TIMESTAMPS)
    by (eexists; split; vm_compute; reflexivity).
  assert (R : out_of_range (strip (lit "00:60:01,000 "))).
  { exists (lit "00"), (lit "60"), (lit "01"), (lit "000").
    vm_compute. repeat split; try reflexivity. right. left. reflexivity. }
  repeat split.
  - apply (parse_srt_file_rejects _
             (bad_number [] (nl "1a") "a" [nl "x"] E0
                ltac:(vm_compute; auto) ltac:(vm_compute; reflexivity))).
  - apply (parse_srt_file_rejects _
             (bad_separator [nl "1"] (nl "00:00:01,000 -> 00:00:02,000")
                [nl "x"] E1 ltac:(vm_compute; discriminate))).
  - apply (parse_srt_file_rejects _
             (bad_timestamp [nl "1"] (nl "00:60:01,000 --> 00:00:02,000")
                (lit "00:60:01,000 ") (lit " 00:00:02,000") [nl "x"] E1
                ltac:(vm_compute; reflexivity)
                (or_introl R))).
  - apply (parse_srt_file_rejects _
             (bad_no_text_blank [nl "1"] (nl "00:00:01,000 --> 00:00:02,000")
                (nl "") [nl "2"] E1 E2 ltac:(vm_compute; reflexivity))).
  - apply (parse_srt_file_rejects _
             (bad_no_text_eof [nl "1"] (nl "00:00:01,000 --> 00:00:02,000")
                E1 E2)).
  - apply (parse_srt_file_rejects _ (bad_truncated truncated_doc E3)).
Defined.

(** * Further properties *)

(** ** More on [delay_subtitles] *)

Lemma delay_subtitles_value (subs out : list Subtitle) (d : Z) :
  snd (delay_subtitles subs d) = Ok out ->
  out = delayed_from d 0 (filter (survives d) subs).
Proof. intros H. now apply delay_subtitles_returns in H as [_ ->]. Qed.

Lemma notice_ok_kept (subs : list Subtitle) (d : Z) :
  Forall (fun r => 0 <= millis (end_ r) + d) subs ->
  Forall (notice_ok d) subs.
Proof.
  intros H. eapply Forall_impl; [|exact H]. intros r Hr K. simpl in Hr. lia.
Qed.

Lemma delayed_from_numbers (d : Z) (l : list Subtitle) :
  forall i,
    Forall (fun r => 1 <= number r <= Z.of_nat (i + length l))
      (delayed_from d i l).
Proof.
  induction l as [|sub l IH]; intros i; simpl; constructor.
  - simpl. lia.
  - eapply Forall_impl; [|apply (IH (S i))]. intros r Hr. simpl in Hr. lia.
Qed.

Lemma Forall_delayed_from (P : Subtitle -> Prop) (d : Z) (l : list Subtitle) :
  (forall i sub, In sub l -> P (delayed_record d i sub)) ->
  forall i, Forall P (delayed_from d i l).
Proof.
  induction l as [|sub l IH]; intros H i; simpl; constructor.
  - apply H. now left.
  - apply IH. intros j s Hs. apply H. now right.
Qed.

Lemma delayed_from_ends (d : Z) (subs : list Subtitle) :
  forall i,
    Forall (fun r => 0 <= millis (end_ r))
      (delayed_from d i (filter (survives d) subs)).
Proof.
  intros i. apply Forall_delayed_from. intros j sub Hs.
  apply filter_In in Hs as [_ Hs]. unfold survives in Hs.
  apply Z.leb_le in Hs. simpl. lia.
Qed.

(** X1. Whatever the input records and the offset, every record returned by
    [delay_subtitles] has a start and an end that are not negative, and
    when every input record has [start <= end], so has every output
    record. *)
Theorem delay_subtitles_times (subs : list Subtitle) (d : Z)
  (out : list Subtitle) :
  snd (delay_subtitles subs d) = Ok out ->
  Forall (fun r => 0 <= millis (start r) /\ 0 <= millis (end_ r)) out
  /\ (Forall (fun r => millis (start r) <= millis (end_ r)) subs ->
      Forall (fun r => millis (start r) <= millis (end_ r)) out).
Proof.
  intros H. apply delay_subtitles_value in H as ->. split.
  - apply Forall_delayed_from. intros i sub Hs. apply filter_In in Hs as [_ Hs].
    unfold survives in Hs. apply Z.leb_le in Hs. simpl. lia.
  - intros Hord. apply Forall_delayed_from. intros i sub Hs.
    apply filter_In in Hs as [Hin Hs]. unfold survives in Hs.
    apply Z.leb_le in Hs. rewrite Forall_forall in Hord.
    specialize (Hord sub Hin). simpl. lia.
Qed.

Lemma delay_subtitles_times_witness :
  Forall (fun r => 0 <= millis (start r) /\ 0 <= millis (end_ r))
    (delayed_from (-1500) 0 (filter (survives (-1500)) example_records)).
Proof.
  apply (delay_subtitles_times example_records (-1500)).
  vm_compute. reflexivity.
Defined.

Lemma filter_all {A} (f : A -> bool) (l : list A) :
  (forall x, In x l -> f x = true) -> filter f l = l.
Proof.
  induction l as [|x l IH]; intros H; simpl; [reflexivity|].
  rewrite (H x) by now left. f_equal. apply IH. intros y Hy. apply H.
  now right.
Qed.

Lemma filter_none {A} (f : A -> bool) (l : list A) :
  (forall x, In x l -> f x = false) -> filter f l = [].
Proof.
  induction l as [|x l IH]; intros H; simpl; [reflexivity|].
  rewrite (H x) by now left. apply IH. intros y Hy. apply H. now right.
Qed.

Lemma map_text_delayed_from (d : Z) (l : list Subtitle) :
  forall i, map text (delayed_from d i l) = map text l.
Proof. induction l; intros i; simpl; [reflexivity | now rewrite IHl]. Qed.

(** X2. When no end timestamp is pushed below zero (in particular for an
    offset that is not negative, on ends that are not negative),
    [delay_subtitles] removes no record and prints nothing: the output has
    the length and, in order, the texts of the input. *)
Theorem delay_subtitles_keeps_all (subs : list Subtitle) (d : Z) :
  Forall (fun r => 0 <= millis (end_ r) + d) subs ->
  exists out,
    delay_subtitles subs d = ([], Ok out)
    /\ length out = length subs
    /\ map text out = map text subs.
Proof.
  intros H. rewrite (delay_subtitles_ok subs d (notice_ok_kept subs d H)).
  rewrite Forall_forall in H.
  rewrite (filter_all (survives d)), (filter_none (removed d)).
  - eexists. split; [reflexivity|]. simpl.
    now rewrite length_delayed_from, map_text_delayed_from.
  - intros r Hr. unfold removed. apply Z.ltb_ge. auto.
  - intros r Hr. unfold survives. apply Z.leb_le. auto.
Qed.

Lemma delay_subtitles_keeps_all_witness :
  exists out,
    delay_subtitles example_records 500 = ([], Ok out)
    /\ length out = 2%nat
    /\ map text out = [[lit "Hello"; lit "there"]; [lit "World"]].
Proof.
  apply (delay_subtitles_keeps_all example_records 500).
  repeat constructor; simpl; lia.
Defined.

Lemma delayed_from_compose (d1 d2 : Z) (l : list Subtitle) :
  (d1 <= 0 /\ d2 <= 0)
  \/ (0 <= d1 /\ 0 <= d2
      /\ Forall (fun r => 0 <= millis (start r) /\ 0 <= millis (end_ r)) l) ->
  forall i j,
    delayed_from d2 j
      (filter (survives d2) (delayed_from d1 i (filter (survives d1) l)))
    = delayed_from (d1 + d2) j (filter (survives (d1 + d2)) l).
Proof.
  induction l as [|sub l IH]; intros H i j; [reflexivity|].
  assert (H' : (d1 <= 0 /\ d2 <= 0)
               \/ (0 <= d1 /\ 0 <= d2
                   /\ Forall (fun r => 0 <= millis (start r)
                                       /\ 0 <= millis (end_ r)) l)).
  { destruct H as [H|(H1 & H2 & H3)]; [now left | right].
    inversion H3. auto. }
  assert (Hsub : (d1 <= 0 /\ d2 <= 0)
                 \/ (0 <= d1 /\ 0 <= d2 /\ 0 <= millis (start sub)
                     /\ 0 <= millis (end_ sub))).
  { destruct H as [H|(H1 & H2 & H3)]; [now left | right].
    inversion H3. tauto. }
  assert (R : forall k, delayed_record d2 j (delayed_record d1 k sub)
                        = delayed_record (d1 + d2) j sub
                        \/ survives d1 sub = false).
  { intros k. destruct (survives d1 sub) eqn:E1; [left | now right].
    unfold survives in E1. apply Z.leb_le in E1.
    unfold delayed_record. cbn [start end_ millis text].
    f_equal; f_equal; lia. }
  cbn [filter].
  destruct (survives d1 sub) eqn:E1; destruct (survives (d1 + d2) sub) eqn:E2;
    cbn [delayed_from filter].
  - replace (survives d2 (delayed_record d1 i sub)) with true.
    + cbn [delayed_from]. rewrite IH by assumption.
      destruct (R i) as [->|]; [reflexivity | discriminate].
    + unfold survives in *. cbn [delayed_record end_ millis].
      symmetry. apply Z.leb_le. apply Z.leb_le in E2. lia.
  - replace (survives d2 (delayed_record d1 i sub)) with false.
    + now apply IH.
    + unfold survives in *. cbn [delayed_record end_ millis].
      symmetry. apply Z.leb_gt. apply Z.leb_gt in E2. lia.
  - unfold survives in E1, E2. apply Z.leb_gt in E1. apply Z.leb_le in E2.
    lia.
  - now apply IH.
Qed.

(** X3. Two delays in a row are one delay by the sum of the offsets when
    both offsets are negative or zero, and when both are positive or zero
    and no input timestamp is negative; this for a list of fewer than
    [10**4300] records in which every record that the single delay removes
    has a number of at most 4300 digits, so that every notice can be
    printed. *)
Theorem delay_subtitles_compose (subs out1 : list Subtitle) (d1 d2 : Z) :
  (d1 <= 0 /\ d2 <= 0)
  \/ (0 <= d1 /\ 0 <= d2
      /\ Forall (fun r => 0 <= millis (start r) /\ 0 <= millis (end_ r)) subs) ->
  Forall (fun r => millis (end_ r) + (d1 + d2) < 0 ->
                   Z.abs (number r) < 10 ^ 4300) subs ->
  Z.of_nat (length subs) < 10 ^ 4300 ->
  snd (delay_subtitles subs d1) = Ok out1 ->
  snd (delay_subtitles out1 d2) = snd (delay_subtitles subs (d1 + d2)).
Proof.
  intros H N L H1. apply delay_subtitles_value in H1 as ->.
  rewrite (delay_subtitles_ok subs (d1 + d2) N).
  rewrite delay_subtitles_ok.
  - cbn [snd]. f_equal. now apply delayed_from_compose.
  - pose proof (delayed_from_numbers d1 (filter (survives d1) subs) 0) as K.
    eapply Forall_impl; [|exact K]. intros r Hr _.
    pose proof (filter_length_le (survives d1) subs) as F.
    change (10 ^ 4300) with str_limit in L. cbn [Nat.add] in Hr. lia.
Qed.

Lemma delay_subtitles_compose_witness :
  snd (delay_subtitles
         (delayed_from (-700) 0 (filter (survives (-700)) example_records))
         (-800))
  = snd (delay_subtitles example_records (-700 + -800)).
Proof.
  apply (delay_subtitles_compose example_records _ (-700) (-800)).
  - left. lia.
  - repeat constructor; intros _; apply small_below_str_limit; simpl; lia.
  - apply (small_below_str_limit 2). simpl. lia.
  - vm_compute. reflexivity.
Defined.

Lemma delayed_from_zero (d : Z) (l : list Subtitle) :
  Forall (fun r => 0 <= millis (end_ r) + d) l ->
  forall i,
    delayed_from 0 i (filter (survives 0) (delayed_from d i l))
    = delayed_from d i l.
Proof.
  induction 1 as [|sub l Hs _ IH]; intros i; [reflexivity|].
  cbn [delayed_from filter]. unfold survives at 1.
  cbn [delayed_record end_ millis].
  destruct (Z.leb_spec 0 (millis (end_ sub) + d + 0)); [|lia].
  cbn [delayed_from]. rewrite IH. f_equal.
  unfold delayed_record. cbn [start end_ millis text]. f_equal.
  - f_equal. lia.
  - f_equal. lia.
Qed.

Lemma delay_zero_after_delay (subs out : list Subtitle) (d : Z) :
  snd (delay_subtitles subs d) = Ok out ->
  delay_subtitles out 0 = ([], Ok out).
Proof.
  intros H. apply delay_subtitles_value in H as ->.
  assert (K : Forall (fun r => 0 <= millis (end_ r) + d)
                (filter (survives d) subs)).
  { apply Forall_forall. intros r Hr. apply filter_In in Hr as [_ Hr].
    unfold survives in Hr. now apply Z.leb_le. }
  rewrite delay_subtitles_ok.
  2: { apply notice_ok_kept. eapply Forall_impl; [|apply delayed_from_ends].
       intros r Hr. simpl in Hr. lia. }
  rewrite (delayed_from_zero d _ K).
  rewrite filter_none; [reflexivity|].
  intros r Hr. unfold removed. apply Z.ltb_ge.
  revert r Hr. apply Forall_forall. apply Forall_delayed_from.
  intros i sub Hs. rewrite Forall_forall in K. specialize (K sub Hs).
  simpl. lia.
Qed.

(** X4. On a list returned by [delay_subtitles], a further delay by zero
    changes nothing and prints nothing: its records are numbered densely
    from 1 and have no negative timestamp. *)
Theorem delay_subtitles_zero_after (subs out : list Subtitle) (d : Z) :
  snd (delay_subtitles subs d) = Ok out ->
  delay_subtitles out 0 = ([], Ok out).
Proof. exact (delay_zero_after_delay subs out d). Qed.

Lemma delay_subtitles_zero_after_witness :
  delay_subtitles
    (delayed_from (-1500) 0 (filter (survives (-1500)) example_records)) 0
  = ([], Ok (delayed_from (-1500) 0
               (filter (survives (-1500)) example_records))).
Proof.
  apply (delay_subtitles_zero_after example_records _ (-1500)).
  vm_compute. reflexivity.
Defined.

(** ** More on [strip] *)

Lemma lstrip_spaces_app (ws s : str) :
  forallb isspace ws = true -> lstrip (ws ++ s) = lstrip s.
Proof.
  induction ws as [|c ws IH]; simpl; [reflexivity|].
  intros H. apply andb_true_iff in H as [-> H]. auto.
Qed.

Lemma lstrip_decomp (s : str) :
  exists ws, s = ws ++ lstrip s /\ forallb isspace ws = true.
Proof.
  induction s as [|c s (ws & E & H)]; simpl.
  - exists []. auto.
  - destruct (isspace c) eqn:Ec.
    + exists (c :: ws). simpl. rewrite Ec, H. split; [now f_equal | auto].
    + exists []. auto.
Qed.

Lemma lstrip_head (s : str) :
  match lstrip s with [] => True | c :: _ => isspace c = false end.
Proof.
  induction s as [|c s IH]; simpl; [exact I|].
  destruct (isspace c) eqn:E; [exact IH | exact E].
Qed.

Lemma lstrip_head_clean (s : str) :
  match s with [] => True | c :: _ => isspace c = false end -> lstrip s = s.
Proof. destruct s as [|c s]; simpl; [reflexivity|]. now intros ->. Qed.

Lemma strip_clean (s : str) : clean s = true -> strip s = s.
Proof.
  unfold clean, strip, rstrip. intros H. apply andb_true_iff in H as [H1 H2].
  rewrite (lstrip_head_clean s).
  - rewrite (lstrip_head_clean (rev s)); [apply rev_involutive|].
    destruct (rev s); [exact I|]. now apply negb_true_iff.
  - destruct s; [exact I|]. now apply negb_true_iff.
Qed.

Lemma clean_strip (s : str) : clean (strip s) = true.
Proof.
  unfold strip, rstrip.
  destruct (lstrip_decomp (rev (lstrip s))) as (ws & E & Hws).
  pose proof (lstrip_head (rev (lstrip s))) as Hy.
  pose proof (lstrip_head s) as Hx.
  set (y := lstrip (rev (lstrip s))) in *.
  assert (Ex : lstrip s = rev y ++ rev ws).
  { rewrite <- rev_app_distr, <- E. now rewrite rev_involutive. }
  unfold clean. rewrite rev_involutive. apply andb_true_iff. split.
  - destruct (rev y) as [|c t] eqn:Er; [reflexivity|].
    rewrite Ex in Hx. simpl in Hx. now rewrite Hx.
  - destruct y; [reflexivity|]. now rewrite Hy.
Qed.

Lemma strip_idempotent (s : str) : strip (strip s) = strip s.
Proof. apply strip_clean, clean_strip. Qed.

Lemma strip_fixed_clean (s : str) : strip s = s -> clean s = true.
Proof. intros H. rewrite <- H. apply clean_strip. Qed.

Lemma forallb_rev {A} (f : A -> bool) (l : list A) :
  forallb f (rev l) = forallb f l.
Proof.
  induction l as [|x l IH]; simpl; [reflexivity|].
  rewrite forallb_app, IH. simpl. rewrite andb_true_r. apply andb_comm.
Qed.

Lemma strip_padded (ws1 s ws2 : str) :
  clean s = true ->
  forallb isspace ws1 = true -> forallb isspace ws2 = true ->
  strip (ws1 ++ s ++ ws2) = s.
Proof.
  intros C H1 H2. unfold strip, rstrip.
  rewrite (lstrip_spaces_app ws1 _ H1).
  pose proof C as C'. unfold clean in C'. apply andb_true_iff in C' as [Ch Cl].
  destruct s as [|c s].
  - simpl. destruct (lstrip_decomp ws2) as (ws & E & _).
    assert (L : lstrip ws2 = []).
    { clear E. induction ws2 as [|x w IH]; simpl; [reflexivity|].
      simpl in H2. apply andb_true_iff in H2 as [-> H2]. auto. }
    rewrite L. reflexivity.
  - apply negb_true_iff in Ch.
    rewrite (lstrip_head_clean ((c :: s) ++ ws2)) by exact Ch.
    rewrite rev_app_distr, lstrip_spaces_app by now rewrite forallb_rev.
    rewrite (lstrip_head_clean (rev (c :: s))); [apply rev_involutive|].
    destruct (rev (c :: s)); [exact I|]. now apply negb_true_iff.
Qed.

Lemma strip_newline (s : str) :
  clean s = true -> strip (s ++ ["010"%char]) = s.
Proof. intros C. now apply (strip_padded [] s ["010"%char]). Qed.

(** ** More on the parser *)

Lemma parse_line_strip (v : Locals.t) (line line' : str) :
  strip line = strip line' -> parse_line v line = parse_line v line'.
Proof. intros E. unfold parse_line. now rewrite E. Qed.

Lemma parse_lines_strip (file file' : list str) :
  map strip file = map strip file' ->
  forall v, parse_lines v file = parse_lines v file'.
Proof.
  revert file'. induction file as [|l file IH]; intros [|l' file'] E v;
    try discriminate; [reflexivity|].
  injection E as E1 E2. simpl. rewrite (parse_line_strip v l l' E1).
  destruct (parse_line v l'); simpl; [now apply IH | reflexivity].
Qed.

(** X5. [parse_srt_file] reads every line through [strip()] only: two
    inputs whose lines agree after trimming give the same result, records
    or error, and an input gives the same result as its trimmed lines. *)
Theorem parse_srt_file_trimmed :
  (forall file file',
      map strip file = map strip file' ->
      parse_srt_file file = parse_srt_file file')
  /\ (forall file, parse_srt_file (map strip file) = parse_srt_file file).
Proof.
  assert (G : forall file file',
             map strip file = map strip file' ->
             parse_srt_file file = parse_srt_file file').
  { intros file file' E. unfold parse_srt_file.
    now rewrite (parse_lines_strip file file' E). }
  split; [exact G|]. intros file. apply G.
  rewrite map_map. apply map_ext. intros l. apply strip_idempotent.
Qed.

Lemma parse_srt_file_trimmed_witness :
  parse_srt_file (map (fun l => lit "  " ++ l ++ lit "  ") example_doc)
  = parse_srt_file example_doc.
Proof.
  apply (proj1 parse_srt_file_trimmed). vm_compute. reflexivity.
Defined.

Lemma int_of_str_cases (s : str) :
  (exists n, int_of_str s = Ok n) \/ raises_ValueError (int_of_str s).
Proof.
  unfold int_of_str, raises_ValueError, int_limit_error.
  destruct (max_str_digits <? Z.of_nat (leading_decimals s)); [eauto|].
  destruct s; [eauto|].
  destruct (forallb isdecimal_char (a :: s)); eauto.
Qed.

Lemma parse_line_cases (v : Locals.t) (line : str) :
  locals_ok v ->
  (exists v', parse_line v line = Ok v') \/ raises_ValueError (parse_line v line).
Proof.
  unfold locals_ok, parse_line, raises_ValueError. intros (Hst & _ & _).
  destruct (Locals.state v).
  - destruct (Nat.eqb (length (strip line)) 0); [eauto|].
    destruct (negb (isdigit (strip line))); [eauto|].
    destruct (int_of_str_cases (strip line)) as [[n ->]|[args ->]];
      cbn [bind]; eauto.
  - destruct (negb (Nat.eqb (length (split arrow (strip line))) 2)); [eauto|].
    destruct (from_str_cases (strip (nth 0 (split arrow (strip line)) [])))
      as [[t1 ->]|[args ->]]; cbn [bind]; [|eauto].
    destruct (from_str_cases (strip (nth 1 (split arrow (strip line)) [])))
      as [[t2 ->]|[args ->]]; cbn [bind]; eauto.
  - destruct (Nat.eqb (length (strip line)) 0); [|eauto].
    destruct (Nat.eqb (length (Locals.text v)) 0); [eauto|].
    destruct Hst as (Hn & Hs & He).
    destruct (Locals.number v); [|congruence].
    destruct (Locals.start v); [|congruence].
    destruct (Locals.end_ v); [|congruence]. eauto.
Qed.

Lemma parse_lines_cases (file : list str) :
  forall v,
    locals_ok v ->
    (exists v', parse_lines v file = Ok v' /\ locals_ok v')
    \/ raises_ValueError (parse_lines v file).
Proof.
  induction file as [|l file IH]; intros v Hv; simpl; [eauto|].
  destruct (parse_line_cases v l Hv) as [[v' E]|[args E]]; rewrite E;
    cbn [bind].
  - apply IH. now apply (parse_line_ok v v' l).
  - right. exists args. reflexivity.
Qed.

Lemma parse_end_cases (v : Locals.t) :
  locals_ok v ->
  (exists rs, parse_end v = Ok rs) \/ raises_ValueError (parse_end v).
Proof.
  unfold locals_ok, parse_end, raises_ValueError. intros (Hst & _ & _).
  destruct (Locals.state v); [eauto | eauto |].
  destruct (Nat.eqb (length (Locals.text v)) 0); [eauto|].
  destruct Hst as (Hn & Hs & He).
  destruct (Locals.number v); [|congruence].
  destruct (Locals.start v); [|congruence].
  destruct (Locals.end_ v); [|congruence]. eauto.
Qed.

(** X6. On every input, [parse_srt_file] either returns a list of records
    or raises a ValueError: its two [RuntimeError("invalid state")] are
    never raised. *)
Theorem parse_srt_file_errors (file : list str) :
  ((exists rs, parse_srt_file file = Ok rs)
   \/ raises_ValueError (parse_srt_file file))
  /\ (forall args, parse_srt_file file <> Raise (RuntimeError args))
  /\ parse_srt_file file <> Raise NegativeTimestampException.
Proof.
  assert (G : (exists rs, parse_srt_file file = Ok rs)
              \/ raises_ValueError (parse_srt_file file)).
  { unfold parse_srt_file.
    destruct (parse_lines_cases file initial_locals initial_locals_ok)
      as [(v & -> & Hv)|[args ->]]; cbn [bind].
    - now apply parse_end_cases.
    - right. exists args. reflexivity. }
  split; [exact G|].
  split; [intros args|]; destruct G as [[rs ->]|[a ->]]; discriminate.
Qed.

Lemma initial_locals_wf : locals_wf initial_locals.
Proof.
  unfold locals_wf, initial_locals. simpl.
  repeat split; try constructor; discriminate.
Qed.

Lemma parse_line_wf (v v' : Locals.t) (line : str) :
  locals_wf v -> parse_line v line = Ok v' -> locals_wf v'.
Proof.
  unfold locals_wf, parse_line. intros (Hsubs & Htxt & Hs & He).
  destruct (Locals.state v).
  - destruct (Nat.eqb (length (strip line)) 0).
    + intros [= <-]. auto.
    + destruct (negb (isdigit (strip line))); [discriminate|].
      destruct (int_of_str (strip line)); [|discriminate]. cbn [bind].
      intros [= <-]. simpl. auto.
  - destruct (negb (Nat.eqb (length (split arrow (strip line))) 2));
      [discriminate|].
    destruct (from_str (strip (nth 0 (split arrow (strip line)) [])))
      as [t1|] eqn:E1; [|discriminate]. cbn [bind].
    destruct (from_str (strip (nth 1 (split arrow (strip line)) [])))
      as [t2|] eqn:E2; [|discriminate]. cbn [bind].
    intros [= <-]. simpl. apply from_str_range in E1, E2.
    split; [assumption|]. split; [assumption|].
    split; intros t [= <-]; assumption.
  - destruct (Nat.eqb (length (strip line)) 0) eqn:El.
    + destruct (Nat.eqb (length (Locals.text v)) 0) eqn:Et; [discriminate|].
      destruct (Locals.number v) as [n|]; [|discriminate].
      destruct (Locals.start v) as [s|]; [|discriminate].
      destruct (Locals.end_ v) as [e|]; [|discriminate].
      intros [= <-]. simpl.
      split; [|repeat split; try constructor; discriminate].
      apply Forall_app. split; [assumption|].
      specialize (Hs s eq_refl). specialize (He e eq_refl).
      unfold time_ok in Hs, He.
      repeat constructor; simpl; auto; try lia.
      intros N. rewrite N in Et. discriminate.
    + intros [= <-]. simpl. split; [assumption|].
      split; [|split; assumption].
      apply Forall_app. split; [assumption|]. repeat constructor.
      * intros N. rewrite N in El. discriminate.
      * apply strip_idempotent.
Qed.

Lemma parse_lines_wf (file : list str) :
  forall v v', locals_wf v -> parse_lines v file = Ok v' -> locals_wf v'.
Proof.
  induction file as [|l file IH]; intros v v' Hv; simpl.
  - now intros [= <-].
  - destruct (parse_line v l) as [v1|] eqn:E; [|discriminate]. cbn [bind].
    apply IH. now apply (parse_line_wf v v1 l).
Qed.

Lemma parse_records_ok (file : list str) (rs : list Subtitle) :
  parse_srt_file file = Ok rs -> Forall record_ok rs.
Proof.
  unfold parse_srt_file.
  destruct (parse_lines initial_locals file) as [v|] eqn:E; [|discriminate].
  cbn [bind].
  apply (parse_lines_wf file _ _ initial_locals_wf) in E.
  destruct E as (Hsubs & Htxt & Hs & He). unfold parse_end.
  destruct (Locals.state v).
  - intros [= <-]. exact Hsubs.
  - discriminate.
  - destruct (Nat.eqb (length (Locals.text v)) 0) eqn:Et; [discriminate|].
    destruct (Locals.number v) as [n|]; [|discriminate].
    destruct (Locals.start v) as [s|]; [|discriminate].
    destruct (Locals.end_ v) as [e|]; [|discriminate].
    intros [= <-]. apply Forall_app. split; [exact Hsubs|].
    repeat constructor; simpl; auto; try (apply Hs; reflexivity);
      try (apply He; reflexivity).
    intros N. rewrite N in Et. discriminate.
Qed.

(** X7. Every record returned by [parse_srt_file] has at least one text
    line, text lines that are not empty and have no whitespace at their
    ends, and a start and an end between 0 and 86399999 ms. *)
Theorem parse_srt_file_records (file : list str) (rs : list Subtitle) :
  parse_srt_file file = Ok rs ->
  Forall (fun r =>
            text r <> []
            /\ Forall (fun l => l <> [] /\ strip l = l) (text r)
            /\ 0 <= millis (start r) <= 86399999
            /\ 0 <= millis (end_ r) <= 86399999) rs.
Proof. exact (parse_records_ok file rs). Qed.

Lemma parse_srt_file_records_witness :
  Forall (fun r =>
            text r <> []
            /\ Forall (fun l => l <> [] /\ strip l = l) (text r)
            /\ 0 <= millis (start r) <= 86399999
            /\ 0 <= millis (end_ r) <= 86399999) example_records.
Proof.
  apply (parse_srt_file_records example_doc). vm_compute. reflexivity.
Defined.

(** X8. A blank line where a number line is expected changes nothing:
    leading blank lines, several blank lines between two blocks and blank
    lines at the end are all ignored. *)
Theorem parse_srt_file_blank_line (pre more : list str) (blank : str) :
  expecting pre NEW_SUBTITLE -> strip blank = [] ->
  parse_srt_file (pre ++ blank :: more) = parse_srt_file (pre ++ more).
Proof.
  intros (v & E & S) B. unfold parse_srt_file.
  rewrite !parse_lines_app, E. cbn [bind parse_lines].
  unfold parse_line at 1. now rewrite S, B.
Qed.

Lemma parse_srt_file_blank_line_witness :
  parse_srt_file ([] ++ nl "  " :: example_doc)
  = parse_srt_file ([] ++ example_doc).
Proof.
  apply parse_srt_file_blank_line; [|vm_compute; reflexivity].
  exists initial_locals. split; reflexivity.
Defined.

(** ** [str(n)] for any [n] *)

Lemma digits_of_uint (d : Decimal.uint) :
  forallb isdecimal_char (list_ascii_of_string (NilEmpty.string_of_uint d))
  = true.
Proof. induction d; simpl; auto. Qed.

Lemma int_digits_of_uint_acc (d : Decimal.uint) :
  forall acc,
    fold_left (fun a c => 10 * a + digit_value c)
      (list_ascii_of_string (NilEmpty.string_of_uint d)) (Z.pos acc)
    = Z.pos (Pos.of_uint_acc d acc).
Proof.
  induction d; intros acc; cbn [NilEmpty.string_of_uint list_ascii_of_string
                                  fold_left Pos.of_uint_acc];
    [reflexivity|..];
    rewrite <- IHd; f_equal; unfold digit_value, ord; simpl N_of_ascii; lia.
Qed.

Lemma int_digits_of_uint (d : Decimal.uint) :
  int_digits (list_ascii_of_string (NilEmpty.string_of_uint d))
  = Z.of_N (Pos.of_uint d).
Proof.
  unfold int_digits.
  induction d; cbn [NilEmpty.string_of_uint list_ascii_of_string
                      fold_left Pos.of_uint];
    [reflexivity | exact IHd |..];
    match goal with
    | |- _ = Z.of_N (N.pos (Pos.of_uint_acc _ ?k)) =>
        exact (int_digits_of_uint_acc d k)
    end.
Qed.

Lemma str_of_int_nonneg (n : Z) :
  0 <= n ->
  str_of_int n <> []
  /\ forallb isdecimal_char (str_of_int n) = true
  /\ int_digits (str_of_int n) = n.
Proof.
  intros H. unfold str_of_int. destruct n as [|p|p]; [| |lia].
  - vm_compute. repeat split. discriminate.
  - cbn [Z.to_int NilZero.string_of_int]. unfold NilZero.string_of_uint.
    pose proof (DecimalPos.Unsigned.to_uint_nonnil p) as N.
    pose proof (DecimalPos.Unsigned.of_to p) as E.
    destruct (Pos.to_uint p) as [|d|d|d|d|d|d|d|d|d|d] eqn:Ed;
      [congruence|..];
      rewrite <- Ed; (split; [rewrite Ed; discriminate|]);
      (split; [apply digits_of_uint|]);
      rewrite int_digits_of_uint, Ed, E; reflexivity.
Qed.

Lemma to_uint_no_leading_zero (p : positive) (u : Decimal.uint) :
  Pos.to_uint p <> Decimal.D0 u.
Proof.
  intros E.
  pose proof (DecimalPos.Unsigned.to_of (Pos.to_uint p)) as T.
  rewrite DecimalPos.Unsigned.of_to in T. cbn [N.to_uint] in T.
  rewrite E, DecimalFacts.unorm_D0 in T.
  destruct (Decimal.nzhead u) eqn:Hz;
    [ unfold Decimal.unorm in T; rewrite Hz in T; injection T as ->;
      exact (DecimalPos.Unsigned.to_uint_nonzero p E)
    | rewrite DecimalFacts.unorm_nzhead in T by (rewrite Hz; discriminate);
      symmetry in T; exact (DecimalFacts.nzhead_nonzero u u T) .. ].
Qed.

Lemma str_of_int_head (n : Z) :
  0 < n -> exists c s, str_of_int n = c :: s /\ c <> "0"%char.
Proof.
  intros H. unfold str_of_int. destruct n as [|p|p]; [lia| |lia].
  cbn [Z.to_int NilZero.string_of_int]. unfold NilZero.string_of_uint.
  pose proof (DecimalPos.Unsigned.to_uint_nonnil p) as N.
  pose proof (to_uint_no_leading_zero p) as Z.
  destruct (Pos.to_uint p) as [|d|d|d|d|d|d|d|d|d|d];
    [congruence | exfalso; exact (Z d eq_refl) |..];
    cbn [NilEmpty.string_of_uint list_ascii_of_string];
    eexists; eexists; (split; [reflexivity | discriminate]).
Qed.

Lemma str_limit_pos : 0 < str_limit.
Proof. apply Z.pow_pos_nonneg; unfold max_str_digits; lia. Qed.

Lemma str_of_int_length (n : Z) :
  0 <= n ->
  n < str_limit <-> Z.of_nat (length (str_of_int n)) <= max_str_digits.
Proof.
  intros H. destruct (str_of_int_nonneg n H) as (_ & D & V).
  pose proof (int_digits_lt _ D) as U. rewrite V in U.
  destruct (Z.eq_dec n 0) as [->|N0].
  - pose proof str_limit_pos. split; intros _; [|assumption].
    change (str_of_int 0) with ["0"%char]. unfold max_str_digits. simpl. lia.
  - destruct (str_of_int_head n ltac:(lia)) as (c & s & E & Nc).
    rewrite E in D, V, U |- *.
    pose proof (int_digits_ge c s D Nc) as L. rewrite V in L.
    cbn [length]. rewrite Nat2Z.inj_succ. unfold str_limit. split; intros B.
    + assert (K : 10 ^ Z.of_nat (length s) < 10 ^ max_str_digits) by lia.
      apply Z.pow_lt_mono_r_iff in K; unfold max_str_digits in *; lia.
    + assert (K : 10 ^ Z.of_nat (length (c :: s)) <= 10 ^ max_str_digits)
        by (apply Z.pow_le_mono_r; cbn [length]; lia).
      cbn [length] in U, K. lia.
Qed.

Lemma str_of_int_negative (n : Z) :
  n < 0 -> exists s, str_of_int n = "-"%char :: s.
Proof.
  intros H. unfold str_of_int. destruct n as [|p|p]; [lia | lia |].
  cbn [Z.to_int NilZero.string_of_int list_ascii_of_string]. eauto.
Qed.

Lemma int_digits_zeros (k : nat) (s : str) :
  int_digits (repeat "0"%char k ++ s) = int_digits s.
Proof.
  unfold int_digits. rewrite fold_left_app. f_equal.
  induction k as [|k IH]; [reflexivity | exact IH].
Qed.

Lemma zfill_digits (w : nat) (s : str) :
  forallb isdecimal_char s = true ->
  zfill w s = repeat "0"%char (w - length s) ++ s.
Proof.
  intros H. unfold zfill. destruct s as [|c s]; [now rewrite app_nil_r|].
  simpl in H. apply andb_true_iff in H as [H _].
  destruct (Ascii.eqb_spec c "+") as [->|_]; [discriminate|].
  destruct (Ascii.eqb_spec c "-") as [->|_]; [discriminate|]. reflexivity.
Qed.

Lemma zfill_str_of_int (w : nat) (n : Z) :
  0 <= n ->
  zfill w (str_of_int n) <> []
  /\ forallb isdecimal_char (zfill w (str_of_int n)) = true
  /\ int_digits (zfill w (str_of_int n)) = n.
Proof.
  intros H. destruct (str_of_int_nonneg n H) as (N & D & V).
  rewrite (zfill_digits w _ D). split; [|split].
  - destruct (str_of_int n); [congruence|]. now destruct (repeat _ _).
  - rewrite forallb_app, D, andb_true_r.
    induction (w - length (str_of_int n))%nat; [reflexivity | exact IHn0].
  - now rewrite int_digits_zeros.
Qed.

Lemma zfill_negative (w : nat) (n : Z) :
  n < 0 -> exists s, zfill w (str_of_int n) = "-"%char :: s.
Proof.
  intros H. destruct (str_of_int_negative n H) as [s ->].
  unfold zfill. simpl. eauto.
Qed.

(** ** More on timestamps and their text *)

Lemma hms_any (t : Timestamp) :
  exists h m s ms,
    hms t = (h, m, s, ms)
    /\ 0 <= m <= 59 /\ 0 <= s <= 59 /\ 0 <= ms <= 999
    /\ ms + 1000 * s + 60000 * m + 3600000 * h = millis t.
Proof.
  unfold hms. do 4 eexists. split; [reflexivity|].
  change (60 * 60 * 1000) with 3600000. change (60 * 1000) with 60000.
  Z.div_mod_to_equations. lia.
Qed.

Lemma Timestamp_str_in_range (t : Timestamp) :
  0 <= millis t < 86400000 ->
  canonical_text (Timestamp_str t) /\ from_str (Timestamp_str t) = Ok t.
Proof.
  intros H.
  destruct (hms_range t H) as (h & m & s & ms & E & Hh & Hm & Hs & Hms & V).
  rewrite (Timestamp_str_hms _ _ _ _ _ E).
  destruct (printed_fields h m s ms Hh Hm Hs Hms) as [F Val].
  split.
  - destruct (field_ok_true 2 h) as (Lh & _); [apply field_ok_2; lia|].
    destruct (field_ok_true 2 m) as (Lm & _); [apply field_ok_2; lia|].
    destruct (field_ok_true 2 s) as (Ls & _); [apply field_ok_2; lia|].
    destruct (field_ok_true 3 ms) as (Lms & _); [apply field_ok_3; lia|].
    do 4 eexists. split; [reflexivity|]. auto 6.
  - rewrite (from_str_ok _ _ _ _ F), Val, V. now destruct t.
Qed.

Lemma from_str_Timestamp_str_same (t t' : Timestamp) :
  from_str (Timestamp_str t) = Ok t' -> t' = t.
Proof.
  intros H.
  destruct (hms_any t) as (h & m & s & ms & E & Hm & Hs & Hms & V).
  rewrite (Timestamp_str_hms _ _ _ _ _ E) in H.
  apply from_str_inv in H as (h' & m' & s' & ms' & Et & F & Val).
  destruct F as (((Lh' & Dh') & _) & ((_ & Dm') & _) & ((_ & Ds') & _) & _).
  destruct (field_ok_true 2 m) as (_ & Dm & Vm); [apply field_ok_2; lia|].
  destruct (field_ok_true 2 s) as (_ & Ds & Vs); [apply field_ok_2; lia|].
  destruct (field_ok_true 3 ms) as (_ & Dms & Vms); [apply field_ok_3; lia|].
  destruct (Z.lt_ge_cases h 0) as [Neg|Pos].
  - exfalso. destruct (zfill_negative 2 h Neg) as [x Ex].
    rewrite Ex in Et. unfold timestamp_text in Et.
    destruct h' as [|c h']; [simpl in Lh'; lia|].
    simpl in Et. injection Et as <- _. simpl in Dh'. discriminate.
  - destruct (zfill_str_of_int 2 h Pos) as (_ & Dh & Vh).
    apply timestamp_text_unique in Et as (<- & <- & <- & <-); auto.
    unfold timestamp_value in Val. rewrite Vh, Vm, Vs, Vms, V in Val.
    destruct t, t'. simpl in Val. now f_equal.
Qed.

(** X9. The round trip through text holds exactly below 24 hours:
    [from_str(str(t)) == t] if and only if [0 <= t.millis < 86400000], and
    for every other [t] the text of [t] is rejected with a ValueError, never
    read as another timestamp. *)
Theorem from_str_of_str_exact (t : Timestamp) :
  (from_str (Timestamp_str t) = Ok t <-> 0 <= millis t < 86400000)
  /\ (~ (0 <= millis t < 86400000) ->
      raises_ValueError (from_str (Timestamp_str t))).
Proof.
  assert (G : from_str (Timestamp_str t) = Ok t <-> 0 <= millis t < 86400000).
  { split.
    - intros H. apply from_str_range in H. lia.
    - intros H. now apply Timestamp_str_in_range. }
  split; [exact G|]. intros N.
  destruct (from_str_cases (Timestamp_str t)) as [[t' H]|H]; [|exact H].
  exfalso. apply N, G. now rewrite <- (from_str_Timestamp_str_same t t' H) at 2.
Qed.

Lemma from_str_of_str_exact_witness :
  raises_ValueError (from_str (Timestamp_str {| millis := 360000000 |}))
  /\ raises_ValueError (from_str (Timestamp_str {| millis := -1 |})).
Proof.
  split.
  - apply (proj2 (from_str_of_str_exact {| millis := 360000000 |})).
    simpl. lia.
  - apply (proj2 (from_str_of_str_exact {| millis := -1 |})). simpl. lia.
Defined.

(** X10. Printing normalises: when [from_str] accepts a text, also one with
    short fields such as [1:2:3,4], the text of the Timestamp it returns
    is in the canonical form [HH:MM:SS,mmm] and parses to the same
    Timestamp. *)
Theorem str_normalises (text : str) (t : Timestamp) :
  from_str text = Ok t ->
  canonical_text (Timestamp_str t)
  /\ length (Timestamp_str t) = 12%nat
  /\ from_str (Timestamp_str t) = Ok t.
Proof.
  intros H. apply from_str_range in H.
  destruct (Timestamp_str_in_range t) as [C R]; [lia|].
  split; [exact C|]. split; [|exact R].
  destruct C as (h & m & s & ms & -> & _ & Lh & Lm & Ls & Lms).
  unfold timestamp_text. rewrite !length_app, Lh, Lm, Ls, Lms. reflexivity.
Qed.

Lemma str_normalises_witness :
  canonical_text (Timestamp_str {| millis := 3723004 |})
  /\ length (Timestamp_str {| millis := 3723004 |}) = 12%nat
  /\ from_str (Timestamp_str {| millis := 3723004 |})
     = Ok {| millis := 3723004 |}.
Proof.
  apply (str_normalises (lit "1:2:3,4")). vm_compute. reflexivity.
Defined.

(** ** [write_srt_file] *)

Lemma last_default {A} (l : list A) (d d' : A) :
  l <> [] -> last l d = last l d'.
Proof.
  induction l as [|x l IH]; [congruence|]. intros _.
  destruct l as [|y l]; [reflexivity|]. simpl in *. apply IH. discriminate.
Qed.

Lemma write_loop_pieces (subtitles : list object) (lst : object) :
  last subtitles lst = lst ->
  forall todo f,
    (todo <> [] -> subtitles <> []) ->
    write_loop subtitles todo f
    = f ++ concat (map (written_piece lst) todo).
Proof.
  intros L. induction todo as [|sub todo IH]; intros f N; simpl.
  - now rewrite app_nil_r.
  - assert (S : subtitles <> []) by (apply N; discriminate).
    rewrite (last_default subtitles sub lst S), L.
    rewrite IH by (intros _; exact S). unfold written_piece.
    destruct (is_ sub lst); simpl; now rewrite <- ?app_assoc, ?app_nil_r.
Qed.

Lemma write_srt_file_pieces (pre : list object) (lst : object) :
  write_srt_file (pre ++ [lst])
  = concat (map (written_piece lst) pre) ++ Subtitle_str (value lst).
Proof.
  unfold write_srt_file.
  rewrite (write_loop_pieces (pre ++ [lst]) lst).
  - rewrite map_app, concat_app. simpl. unfold written_piece at 2.
    unfold is_. rewrite Nat.eqb_refl. now rewrite !app_nil_r.
  - apply last_last.
  - intros _. now destruct pre.
Qed.

Lemma joined_records_app (pre : list Subtitle) (r : Subtitle) :
  joined_records (pre ++ [r])
  = concat (map (fun x => Subtitle_str x ++ ["010"%char]) pre)
    ++ Subtitle_str r.
Proof.
  unfold joined_records. induction pre as [|x pre IH]; [reflexivity|].
  cbn [app map concat]. rewrite <- app_assoc, <- IH.
  destruct (map Subtitle_str (pre ++ [r])) eqn:E.
  - destruct pre; discriminate.
  - cbn [join]. now rewrite <- app_assoc.
Qed.




(** ** Reading back what was written *)

Lemma universal_newlines_id (s : str) :
  ~ In "013"%char s -> universal_newlines s = s.
Proof.
  induction s as [|c s IH]; intros H; simpl; [reflexivity|].
  destruct (Ascii.eqb_spec c "013") as [->|_].
  - exfalso. apply H. now left.
  - f_equal. apply IH. intros Hin. apply H. now right.
Qed.

Lemma iter_lines_line (l : str) :
  ~ In "010"%char l ->
  forall cur rest,
    iter_lines cur (l ++ "010"%char :: rest)
    = (rev cur ++ with_newline l) :: iter_lines [] rest.
Proof.
  unfold with_newline.
  induction l as [|c l IH]; intros H cur rest; simpl.
  - reflexivity.
  - destruct (Ascii.eqb_spec c "010") as [->|_].
    + exfalso. apply H. now left.
    + rewrite IH by (intros Hin; apply H; now right).
      simpl. now rewrite <- app_assoc.
Qed.

Lemma iter_lines_doc (ls : list str) :
  Forall (fun l => ~ In "010"%char l) ls ->
  iter_lines [] (concat (map with_newline ls)) = map with_newline ls.
Proof.
  induction 1 as [|l ls Hl _ IH]; [reflexivity|].
  simpl. unfold with_newline at 1. rewrite <- app_assoc. simpl.
  rewrite (iter_lines_line l Hl). simpl. now rewrite IH.
Qed.

Lemma readlines_doc (ls : list str) :
  Forall no_newline ls ->
  readlines (concat (map with_newline ls)) = map with_newline ls.
Proof.
  intros H. unfold readlines. rewrite universal_newlines_id.
  - apply iter_lines_doc. eapply Forall_impl; [|exact H].
    intros l [Hl _]. exact Hl.
  - intros Hin. apply in_concat in Hin as (x & Hx & Hc).
    apply in_map_iff in Hx as (l & <- & Hl).
    rewrite Forall_forall in H. destruct (H l Hl) as [_ Hcr].
    unfold with_newline in Hc. apply in_app_or in Hc as [Hc|[Hc|[]]].
    + contradiction.
    + discriminate.
Qed.

Lemma join_with_newline (txt : list str) :
  txt <> [] ->
  join ["010"%char] txt ++ ["010"%char] = concat (map with_newline txt).
Proof.
  induction txt as [|l txt IH]; [congruence|]. intros _.
  destruct txt as [|l' txt].
  - simpl. unfold with_newline. now rewrite app_nil_r.
  - cbn [join map concat]. unfold with_newline at 1.
    rewrite <- !app_assoc. f_equal. f_equal. apply IH. discriminate.
Qed.

Lemma Subtitle_str_lines (r : Subtitle) :
  text r <> [] ->
  Subtitle_str r = concat (map with_newline (record_lines r)).
Proof.
  intros H. unfold Subtitle_str, record_lines. cbn [map concat].
  rewrite <- (join_with_newline _ H). unfold with_newline.
  now rewrite <- !app_assoc.
Qed.

Lemma joined_records_lines (rs : list Subtitle) :
  Forall (fun r => text r <> []) rs ->
  joined_records rs = concat (map with_newline (doc_lines rs)).
Proof.
  unfold joined_records.
  induction 1 as [|r rs Hr Hrs IH]; [reflexivity|].
  destruct rs as [|r' rs].
  - simpl. now apply Subtitle_str_lines.
  - cbn [map join doc_lines] in *. rewrite IH.
    rewrite map_app, concat_app. cbn [map concat].
    now rewrite (Subtitle_str_lines r Hr).
Qed.

Lemma nospace_digits (s : str) :
  forallb isdecimal_char s = true -> nospace s = true.
Proof.
  unfold nospace. rewrite !forallb_forall. intros H c Hc.
  specialize (H c Hc). apply isdecimal_char_true in H.
  unfold isspace, between. apply negb_true_iff.
  repeat (apply orb_false_iff; split);
    rewrite ?andb_false_iff, ?Z.leb_gt, ?Z.eqb_neq; lia.
Qed.

Lemma nospace_app (a b : str) :
  nospace (a ++ b) = nospace a && nospace b.
Proof. apply forallb_app. Qed.

Lemma nospace_canonical (s : str) : canonical_text s -> nospace s = true.
Proof.
  intros (h & m & x & ms & -> & F & _).
  destruct F as (((_ & Dh) & _) & ((_ & Dm) & _) & ((_ & Dx) & _) & (_ & Dms)).
  unfold timestamp_text.
  rewrite !nospace_app, (nospace_digits _ Dh), (nospace_digits _ Dm),
    (nospace_digits _ Dx), (nospace_digits _ Dms).
  reflexivity.
Qed.

Lemma nospace_no_newline (s : str) : nospace s = true -> no_newline s.
Proof.
  unfold nospace. rewrite forallb_forall. intros H.
  split; intros Hin; apply H in Hin; discriminate.
Qed.

Lemma clean_ends (s1 mid s2 : str) :
  s1 <> [] -> nospace s1 = true -> s2 <> [] -> nospace s2 = true ->
  clean (s1 ++ mid ++ s2) = true.
Proof.
  intros N1 H1 N2 H2. unfold clean. apply andb_true_iff. split.
  - destruct s1 as [|c s1]; [congruence|]. simpl in *.
    now apply andb_true_iff in H1 as [-> _].
  - rewrite !rev_app_distr.
    assert (H2' : nospace (rev s2) = true)
      by (unfold nospace; now rewrite forallb_rev).
    destruct (rev s2) as [|c t] eqn:E.
    + apply (f_equal (@rev ascii)) in E. rewrite rev_involutive in E.
      simpl in E. congruence.
    + simpl in *. now apply andb_true_iff in H2' as [-> _].
Qed.

Lemma nospace_clean (s : str) : nospace s = true -> clean s = true.
Proof.
  intros H. unfold clean. apply andb_true_iff. split.
  - destruct s as [|c s]; [reflexivity|]. simpl in H.
    now apply andb_true_iff in H as [-> _].
  - assert (H' : nospace (rev s) = true)
      by (unfold nospace; now rewrite forallb_rev).
    destruct (rev s) as [|c t]; [reflexivity|]. simpl in H'.
    now apply andb_true_iff in H' as [-> _].
Qed.

Lemma Timestamp_str_facts (t : Timestamp) :
  time_ok t ->
  Timestamp_str t <> [] /\ nospace (Timestamp_str t) = true
  /\ from_str (Timestamp_str t) = Ok t.
Proof.
  intros H. destruct (Timestamp_str_in_range t) as [C R];
    [unfold time_ok in H; lia|].
  split; [|split; [now apply nospace_canonical | exact R]].
  intros E. rewrite E in R. vm_compute in R. discriminate.
Qed.

Lemma timestamps_line_facts (a b : Timestamp) :
  time_ok a -> time_ok b ->
  let line := Timestamp_str a ++ lit " --> " ++ Timestamp_str b in
  no_newline line
  /\ strip (with_newline line)
     = (Timestamp_str a ++ lit " ") ++ arrow ++ (lit " " ++ Timestamp_str b)
  /\ strip (Timestamp_str a ++ lit " ") = Timestamp_str a
  /\ strip (lit " " ++ Timestamp_str b) = Timestamp_str b.
Proof.
  intros Ha Hb line.
  destruct (Timestamp_str_facts a Ha) as (Na & Sa & _).
  destruct (Timestamp_str_facts b Hb) as (Nb & Sb & _).
  split; [|split; [|split]].
  - destruct (nospace_no_newline _ Sa) as [A1 A2].
    destruct (nospace_no_newline _ Sb) as [B1 B2].
    unfold line. split; intros Hin;
      apply in_app_or in Hin as [Hin|Hin]; try contradiction;
      apply in_app_or in Hin as [Hin|Hin]; try contradiction;
      simpl in Hin; repeat destruct Hin as [Hin|Hin]; try discriminate;
      contradiction.
  - unfold with_newline. rewrite strip_newline.
    + unfold line. now rewrite <- app_assoc.
    + unfold line. now apply clean_ends.
  - rewrite <- (strip_padded [] (Timestamp_str a) (lit " ")) at 2;
      [reflexivity | now apply nospace_clean | reflexivity | reflexivity].
  - rewrite <- (strip_padded (lit " ") (Timestamp_str b) []) at 2;
      [now rewrite app_nil_r | now apply nospace_clean
      | reflexivity | reflexivity].
Qed.

Lemma text_lines_facts (txt : list str) :
  Forall line_ok txt ->
  Forall (fun l => strip l <> []) (map with_newline txt)
  /\ map strip (map with_newline txt) = txt
  /\ Forall no_newline txt.
Proof.
  induction 1 as [|l txt (N & S & NL) _ (IH1 & IH2 & IH3)].
  - repeat split; constructor.
  - assert (E : strip (with_newline l) = l).
    { unfold with_newline. apply strip_newline. now apply strip_fixed_clean. }
    split; [|split].
    + simpl. constructor; [now rewrite E | exact IH1].
    + simpl. now rewrite E, IH2.
    + now constructor.
Qed.

Lemma printable_block (r : Subtitle) :
  printable r ->
  wf_block (map with_newline (record_lines r)) r
  /\ Forall no_newline (record_lines r).
Proof.
  intros ([Hn Hb] & Hs & He & Ht & Hl).
  destruct (str_of_int_nonneg (number r) Hn) as (Nn & Dn & Vn).
  apply (str_of_int_length (number r) Hn) in Hb.
  destruct (timestamps_line_facts (start r) (end_ r) Hs He)
    as (NLt & St & Sa & Sb).
  destruct (Timestamp_str_facts (start r) Hs) as (_ & _ & Fa).
  destruct (Timestamp_str_facts (end_ r) He) as (_ & _ & Fb).
  destruct (text_lines_facts (text r) Hl) as (T1 & T2 & T3).
  assert (En : strip (with_newline (str_of_int (number r)))
               = str_of_int (number r)).
  { unfold with_newline. apply strip_newline, nospace_clean.
    now apply nospace_digits. }
  split.
  - unfold record_lines. cbn [map].
    pose proof (wf_block_intro
                  (with_newline (str_of_int (number r)))
                  (with_newline (Timestamp_str (start r) ++ lit " --> "
                                 ++ Timestamp_str (end_ r)))
                  (map with_newline (text r))
                  (Timestamp_str (start r) ++ lit " ")
                  (lit " " ++ Timestamp_str (end_ r))
                  (start r) (end_ r)) as W.
    rewrite En, Sa, Sb, T2, Vn in W.
    destruct r as [n s e txt]. simpl in *. apply W; auto.
    destruct txt; [congruence | discriminate].
  - unfold record_lines. constructor; [|constructor; assumption].
    apply nospace_no_newline. now apply nospace_digits.
Qed.

Lemma printable_doc (rs : list Subtitle) :
  Forall printable rs ->
  wf_doc (map with_newline (doc_lines rs)) rs
  /\ Forall no_newline (doc_lines rs).
Proof.
  induction 1 as [|r rs Hr Hrs (IH1 & IH2)].
  - split; constructor.
  - destruct (printable_block r Hr) as [B NL].
    destruct rs as [|r' rs].
    + split; [now apply wf_doc_last | exact NL].
    + cbn [doc_lines] in *. split.
      * rewrite map_app. cbn [map].
        apply wf_doc_cons; [exact B | reflexivity | exact IH1].
      * apply Forall_app. split; [exact NL|]. constructor; [|exact IH2].
        split; intros [].
Qed.

Lemma read_joined_records (rs : list Subtitle) :
  Forall printable rs ->
  parse_srt_file (readlines (joined_records rs)) = Ok rs.
Proof.
  intros H. destruct (printable_doc rs H) as [W NL].
  rewrite joined_records_lines.
  - rewrite (readlines_doc _ NL). unfold parse_srt_file.
    apply (parse_wf_doc _ rs W []).
  - eapply Forall_impl; [|exact H]. intros r (_ & _ & _ & Ht & _). exact Ht.
Qed.

Lemma write_srt_file_joined (objs : list object) :
  NoDup (map addr objs) ->
  write_srt_file objs = joined_records (map value objs).
Proof.
  intros H. induction objs as [|o objs _] using rev_ind; [reflexivity|].
  rewrite write_srt_file_pieces, map_app. simpl.
  rewrite joined_records_app, map_map. do 2 f_equal.
  apply map_ext_in. intros x Hx. unfold written_piece, is_.
  rewrite map_app in H. simpl in H. apply NoDup_remove_2 in H.
  rewrite app_nil_r in H.
  destruct (Nat.eqb_spec (addr x) (addr o)) as [E|_]; [|reflexivity].
  exfalso. apply H. rewrite <- E. now apply in_map.
Qed.

(** X12. Writing then reading gives the records back: for distinct
    Subtitle objects whose number is not negative and has at most 4300
    digits (below [10**4300]), whose timestamps are not negative and
    below 24 hours and whose text has at least one line, each line not
    empty, without whitespace at its ends and without line end inside,
    [parse_srt_file] on the file written by [write_srt_file] returns the
    same records. *)
Theorem parse_written_file (objs : list object) :
  NoDup (map addr objs) ->
  Forall printable (map value objs) ->
  parse_srt_file (readlines (write_srt_file objs)) = Ok (map value objs).
Proof.
  intros D P. rewrite (write_srt_file_joined objs D).
  now apply read_joined_records.
Qed.

Lemma parse_written_file_witness :
  parse_srt_file (readlines (write_srt_file (fresh_objects 0 example_records)))
  = Ok example_records.
Proof.
  apply (parse_written_file (fresh_objects 0 example_records)).
  - simpl. repeat constructor; simpl; intuition discriminate.
  - repeat constructor; simpl; try lia; try discriminate;
      try (vm_compute; reflexivity); intuition discriminate.
Defined.

(** ** The lines of a text stream *)

Lemma universal_newlines_no_cr_bounded (n : nat) :
  forall s, (length s <= n)%nat -> ~ In "013"%char (universal_newlines s).
Proof.
  induction n as [|n IH]; intros [|c s] L; simpl in *; try tauto; [lia|].
  destruct (Ascii.eqb_spec c "013") as [->|Hc].
  - destruct s as [|c' s'].
    + simpl. intuition discriminate.
    + destruct (Ascii.eqb c' "010"); intros [E|E]; try discriminate;
        revert E; apply IH; simpl in *; lia.
  - intros [E|E]; [congruence|]. revert E. apply IH. lia.
Qed.

Lemma universal_newlines_no_cr (s : str) :
  ~ In "013"%char (universal_newlines s).
Proof. apply (universal_newlines_no_cr_bounded (length s)). lia. Qed.

Lemma iter_lines_inline (s : str) :
  ~ In "013"%char s ->
  forall cur,
    no_newline cur ->
    Forall (fun l => no_newline l
                     \/ exists body, l = with_newline body /\ no_newline body)
      (iter_lines cur s).
Proof.
  induction s as [|c s IH]; intros Hs cur Hc; simpl.
  - destruct cur; constructor; [|constructor]. left.
    destruct Hc as [H1 H2]. split; intros H; apply in_rev in H; auto.
  - destruct (Ascii.eqb_spec c "010") as [->|Hn].
    + constructor.
      * right. exists (rev cur). split; [reflexivity|].
        destruct Hc as [H1 H2]. split; intros H; apply in_rev in H; auto.
      * apply IH; [intros H; apply Hs; now right | split; intros []].
    + apply IH; [intros H; apply Hs; now right|].
      destruct Hc as [H1 H2]. split; intros [E|E]; auto.
      apply Hs. left. exact E.
Qed.

Lemma strip_decomp (s : str) :
  exists ws1 ws2, s = ws1 ++ strip s ++ ws2.
Proof.
  unfold strip, rstrip.
  destruct (lstrip_decomp s) as (ws1 & E1 & _).
  destruct (lstrip_decomp (rev (lstrip s))) as (ws2 & E2 & _).
  exists ws1, (rev ws2). rewrite <- rev_app_distr, <- E2, rev_involutive.
  exact E1.
Qed.

Lemma in_strip_in (c : ascii) (s : str) : In c (strip s) -> In c s.
Proof.
  intros H. destruct (strip_decomp s) as (ws1 & ws2 & E). rewrite E.
  apply in_or_app. right. apply in_or_app. now left.
Qed.

Lemma lstrip_all_spaces (ws : str) :
  forallb isspace ws = true -> lstrip ws = [].
Proof.
  induction ws as [|c ws IH]; simpl; [reflexivity|].
  intros H. apply andb_true_iff in H as [-> H]. auto.
Qed.

Lemma lstrip_app (s t : str) :
  lstrip (s ++ t) = match lstrip s with [] => lstrip t | _ => lstrip s ++ t end.
Proof.
  induction s as [|c s IH]; simpl; [now destruct (lstrip t)|].
  destruct (isspace c); [exact IH | reflexivity].
Qed.

Lemma strip_app_spaces (s ws : str) :
  forallb isspace ws = true -> strip (s ++ ws) = strip s.
Proof.
  intros H. unfold strip, rstrip. rewrite lstrip_app.
  destruct (lstrip s) as [|c x] eqn:E.
  - now rewrite (lstrip_all_spaces ws H).
  - rewrite rev_app_distr, lstrip_spaces_app; [reflexivity|].
    now rewrite forallb_rev.
Qed.

Lemma readlines_inline (content : str) :
  Forall (fun l => no_newline (strip l)) (readlines content).
Proof.
  unfold readlines.
  pose proof (iter_lines_inline (universal_newlines content)
                (universal_newlines_no_cr content) []) as H.
  eapply Forall_impl; [|apply H; split; intros []].
  intros l [Hl|(body & -> & Hb)].
  - destruct Hl as [H1 H2]. split; intros Hin; apply in_strip_in in Hin; auto.
  - unfold with_newline. rewrite strip_app_spaces by reflexivity.
    destruct Hb as [H1 H2]. split; intros Hin; apply in_strip_in in Hin; auto.
Qed.

Lemma parse_line_inline (v v' : Locals.t) (line : str) :
  no_newline (strip line) ->
  locals_inline v -> parse_line v line = Ok v' -> locals_inline v'.
Proof.
  unfold locals_inline, parse_line. intros Hl (Hsubs & Htxt).
  destruct (Locals.state v).
  - destruct (Nat.eqb (length (strip line)) 0).
    + intros [= <-]. auto.
    + destruct (negb (isdigit (strip line))); [discriminate|].
      destruct (int_of_str (strip line)); [|discriminate]. cbn [bind].
      intros [= <-]. simpl. auto.
  - destruct (negb (Nat.eqb (length (split arrow (strip line))) 2));
      [discriminate|].
    destruct (from_str (strip (nth 0 (split arrow (strip line)) [])));
      [|discriminate]. cbn [bind].
    destruct (from_str (strip (nth 1 (split arrow (strip line)) [])));
      [|discriminate]. cbn [bind].
    intros [= <-]. simpl. auto.
  - destruct (Nat.eqb (length (strip line)) 0).
    + destruct (Nat.eqb (length (Locals.text v)) 0); [discriminate|].
      destruct (Locals.number v); [|discriminate].
      destruct (Locals.start v); [|discriminate].
      destruct (Locals.end_ v); [|discriminate].
      intros [= <-]. simpl. split; [|constructor].
      apply Forall_app. split; [assumption|].
      constructor; [exact Htxt | constructor].
    + intros [= <-]. simpl. split; [assumption|].
      apply Forall_app. split; [assumption|].
      constructor; [exact Hl | constructor].
Qed.

Lemma parse_lines_inline (file : list str) :
  Forall (fun l => no_newline (strip l)) file ->
  forall v v',
    locals_inline v -> parse_lines v file = Ok v' -> locals_inline v'.
Proof.
  induction 1 as [|l file Hl _ IH]; intros v v' Hv; simpl.
  - now intros [= <-].
  - destruct (parse_line v l) as [v1|] eqn:E; [|discriminate]. cbn [bind].
    apply IH. now apply (parse_line_inline v v1 l).
Qed.

Lemma parse_inline (file : list str) (rs : list Subtitle) :
  Forall (fun l => no_newline (strip l)) file ->
  parse_srt_file file = Ok rs ->
  Forall (fun r => Forall no_newline (text r)) rs.
Proof.
  intros Hf. unfold parse_srt_file.
  destruct (parse_lines initial_locals file) as [v|] eqn:E; [|discriminate].
  cbn [bind].
  apply (parse_lines_inline file Hf) in E; [|split; constructor].
  destruct E as (Hsubs & Htxt). unfold parse_end.
  destruct (Locals.state v).
  - now intros [= <-].
  - discriminate.
  - destruct (Nat.eqb (length (Locals.text v)) 0); [discriminate|].
    destruct (Locals.number v); [|discriminate].
    destruct (Locals.start v); [|discriminate].
    destruct (Locals.end_ v); [|discriminate].
    intros [= <-]. apply Forall_app. split; [assumption|].
    constructor; [exact Htxt | constructor].
Qed.

(** ** The whole run *)

Lemma fresh_objects_value (subs : list Subtitle) :
  forall base, map value (fresh_objects base subs) = subs.
Proof.
  induction subs as [|r subs IH]; intros base; simpl;
    [reflexivity | now rewrite IH].
Qed.

Lemma fresh_objects_addr (subs : list Subtitle) :
  forall base, map addr (fresh_objects base subs) = seq base (length subs).
Proof.
  induction subs as [|r subs IH]; intros base; simpl;
    [reflexivity | now rewrite IH].
Qed.

Lemma write_fresh_objects (subs : list Subtitle) (base : nat) :
  write_srt_file (fresh_objects base subs) = joined_records subs.
Proof.
  rewrite write_srt_file_joined, fresh_objects_value; [reflexivity|].
  rewrite fresh_objects_addr. apply seq_NoDup.
Qed.

Lemma Forall_delayed_from_index (P : Subtitle -> Prop) (d : Z)
  (l : list Subtitle) :
  forall j,
    (forall i sub,
        In sub l -> (i < j + length l)%nat -> P (delayed_record d i sub)) ->
    Forall P (delayed_from d j l).
Proof.
  induction l as [|sub l IH]; intros j H; simpl; constructor.
  - apply H; [now left | simpl; lia].
  - apply IH. intros i s Hs Hi. apply H; [now right | simpl; lia].
Qed.

Lemma delayed_printable (d : Z) (i : nat) (sub : Subtitle) :
  record_ok sub -> Forall no_newline (text sub) ->
  survives d sub = true -> Z.of_nat i + 1 < str_limit ->
  millis (start sub) + d < 86400000 -> millis (end_ sub) + d < 86400000 ->
  printable (delayed_record d i sub).
Proof.
  intros (Ht & Hl & Hs & He) Hn Hsv Hi Bs Be.
  unfold survives in Hsv. apply Z.leb_le in Hsv.
  unfold printable, time_ok, delayed_record. cbn [number start end_ text millis].
  split; [lia|]. split; [lia|]. split; [lia|]. split; [exact Ht|].
  unfold text_ok in Hl. rewrite Forall_forall in *.
  intros l Hin. destruct (Hl l Hin) as [N S]. split; [exact N|].
  split; [exact S | exact (Hn l Hin)].
Qed.

Lemma main_delay_value (filename content : str) (d : Z)
  (subs : list Subtitle) :
  parse_srt_file (readlines content) = Ok subs ->
  main_delay filename content d
  = (map removed_notice (filter (removed d) subs),
     Ok (lit "delayed_" ++ filename,
         joined_records (delayed_from d 0 (filter (survives d) subs)))).
Proof.
  intros P. unfold main_delay. rewrite P.
  rewrite (delay_subtitles_ok subs d (parse_notice_ok _ subs d P)).
  now rewrite write_fresh_objects.
Qed.

Lemma main_delay_output (filename content : str) (d : Z)
  (subs : list Subtitle) :
  parse_srt_file (readlines content) = Ok subs ->
  Z.of_nat (length subs) < str_limit ->
  Forall (fun r => millis (start r) + d < 86400000
                   /\ millis (end_ r) + d < 86400000) subs ->
  main_delay filename content d
  = (map removed_notice (filter (removed d) subs),
     Ok (lit "delayed_" ++ filename,
         joined_records (delayed_from d 0 (filter (survives d) subs))))
  /\ Forall printable (delayed_from d 0 (filter (survives d) subs)).
Proof.
  intros P L B. split; [now apply main_delay_value|].
  pose proof (parse_records_ok _ _ P) as R.
  pose proof (parse_inline _ _ (readlines_inline content) P) as N.
  pose proof (filter_length_le (survives d) subs) as F.
  apply Forall_delayed_from_index. intros i sub Hin Hi.
  apply filter_In in Hin as [Hin Hsv].
  rewrite Forall_forall in R, N, B. destruct (B sub Hin) as [Bs Be].
  apply delayed_printable; auto. lia.
Qed.

(** X13. The file written by a run can be read back: when the input file
    parses into [subs], fewer than [10**4300] records, and no delayed
    timestamp reaches 24 hours, the run prints one notice per removed
    record, writes the file [delayed_<filename>], and [parse_srt_file] on
    that file returns exactly the list that [delay_subtitles] returned.
    The bound on the number of records is what lets [int] read back the
    numbers that the run writes. *)
Theorem main_delay_readable (filename content : str) (d : Z)
  (subs : list Subtitle) :
  parse_srt_file (readlines content) = Ok subs ->
  Z.of_nat (length subs) < 10 ^ 4300 ->
  Forall (fun r => millis (start r) + d < 86400000
                   /\ millis (end_ r) + d < 86400000) subs ->
  exists written delayed,
    main_delay filename content d
    = (map removed_notice (filter (removed d) subs),
       Ok (lit "delayed_" ++ filename, written))
    /\ snd (delay_subtitles subs d) = Ok delayed
    /\ parse_srt_file (readlines written) = Ok delayed.
Proof.
  intros P L B. destruct (main_delay_output filename content d subs P L B)
    as [E Pr].
  eexists. eexists. split; [exact E|]. split.
  - now rewrite (delay_subtitles_ok subs d (parse_notice_ok _ subs d P)).
  - now apply read_joined_records.
Qed.

Lemma main_delay_readable_witness :
  exists written delayed,
    main_delay (lit "a.srt") (concat example_doc) (-1500)
    = ([], Ok (lit "delayed_a.srt", written))
    /\ snd (delay_subtitles example_records (-1500)) = Ok delayed
    /\ parse_srt_file (readlines written) = Ok delayed.
Proof.
  apply (main_delay_readable (lit "a.srt") (concat example_doc) (-1500)
           example_records).
  - vm_compute. reflexivity.
  - apply (small_below_str_limit 2). simpl. lia.
  - repeat constructor; simpl; lia.
Defined.

(** X14. The file written by a run is a fixed point of the run with offset
    zero: under the hypotheses of X13, running again on the written file
    with offset 0 prints nothing and writes the same text; in particular a
    run with offset 0 on any file that parses into fewer than [10**4300]
    records gives a text that a second run leaves unchanged. *)
Theorem main_delay_stable (filename filename' content : str) (d : Z)
  (subs : list Subtitle) (out : list str) (name written : str) :
  parse_srt_file (readlines content) = Ok subs ->
  Z.of_nat (length subs) < 10 ^ 4300 ->
  Forall (fun r => millis (start r) + d < 86400000
                   /\ millis (end_ r) + d < 86400000) subs ->
  main_delay filename content d = (out, Ok (name, written)) ->
  main_delay filename' written 0
  = ([], Ok (lit "delayed_" ++ filename', written)).
Proof.
  intros P L B M.
  destruct (main_delay_output filename content d subs P L B) as [E Pr].
  rewrite E in M. injection M as _ _ <-.
  unfold main_delay. rewrite (read_joined_records _ Pr).
  rewrite (delay_zero_after_delay subs _ d);
    [|now rewrite (delay_subtitles_ok subs d (parse_notice_ok _ subs d P))].
  now rewrite write_fresh_objects.
Qed.

Lemma main_delay_stable_witness :
  main_delay (lit "b.srt")
    (joined_records (delayed_from 0 0 (filter (survives 0) example_records)))
    0
  = ([], Ok (lit "delayed_b.srt",
             joined_records
               (delayed_from 0 0 (filter (survives 0) example_records)))).
Proof.
  apply (main_delay_stable (lit "a.srt") (lit "b.srt") (concat example_doc) 0
           example_records [] (lit "delayed_a.srt")).
  - vm_compute. reflexivity.
  - apply (small_below_str_limit 2). simpl. lia.
  - repeat constructor; simpl; lia.
  - vm_compute. reflexivity.
Defined.

(** ** Documents put one after the other *)

Lemma parse_line_prepend (subs : list Subtitle) (v : Locals.t) (line : str) :
  parse_line (prepend subs v) line
  = (v' <- parse_line v line;; Ok (prepend subs v')).
Proof.
  unfold parse_line, prepend. cbn [Locals.state Locals.subtitles Locals.number
                                     Locals.start Locals.end_ Locals.text].
  destruct (Locals.state v) eqn:S.
  - destruct (Nat.eqb (length (strip line)) 0);
      [cbn [bind]; now rewrite S|].
    destruct (negb (isdigit (strip line))); [reflexivity|].
    destruct (int_of_str (strip line)); reflexivity.
  - destruct (negb (Nat.eqb (length (split arrow (strip line))) 2));
      [reflexivity|].
    destruct (from_str (strip (nth 0 (split arrow (strip line)) [])));
      [|reflexivity]. cbn [bind].
    destruct (from_str (strip (nth 1 (split arrow (strip line)) [])));
      reflexivity.
  - destruct (Nat.eqb (length (strip line)) 0); [|reflexivity].
    destruct (Locals.text v) eqn:T; [reflexivity|]. cbn [length Nat.eqb].
    destruct (Locals.number v); [|reflexivity].
    destruct (Locals.start v); [|reflexivity].
    destruct (Locals.end_ v); [|reflexivity].
    cbn [bind Locals.state Locals.subtitles Locals.number
           Locals.start Locals.end_ Locals.text].
    now rewrite app_assoc.
Qed.

Lemma parse_lines_prepend (subs : list Subtitle) (file : list str) :
  forall v,
    parse_lines (prepend subs v) file
    = (v' <- parse_lines v file;; Ok (prepend subs v')).
Proof.
  induction file as [|l file IH]; intros v; simpl; [reflexivity|].
  rewrite parse_line_prepend. destruct (parse_line v l); simpl;
    [apply IH | reflexivity].
Qed.

Lemma parse_end_prepend (subs : list Subtitle) (v : Locals.t) :
  parse_end (prepend subs v) = (rs <- parse_end v;; Ok (subs ++ rs)).
Proof.
  unfold parse_end, prepend. cbn [Locals.state Locals.subtitles Locals.number
                                    Locals.start Locals.end_ Locals.text].
  destruct (Locals.state v); [reflexivity | reflexivity |].
  destruct (Nat.eqb (length (Locals.text v)) 0); [reflexivity|].
  destruct (Locals.number v); [|reflexivity].
  destruct (Locals.start v); [|reflexivity].
  destruct (Locals.end_ v); [|reflexivity].
  cbn [bind]. now rewrite app_assoc.
Qed.

Lemma parse_line_idle (v v' : Locals.t) (line : str) :
  idle_ok v -> parse_line v line = Ok v' -> idle_ok v'.
Proof.
  unfold idle_ok, parse_line. intros Hv.
  destruct (Locals.state v) eqn:S.
  - destruct (Nat.eqb (length (strip line)) 0).
    + intros [= <-]. intros _. now apply Hv.
    + destruct (negb (isdigit (strip line))); [discriminate|].
      destruct (int_of_str (strip line)); [|discriminate]. cbn [bind].
      intros [= <-]. discriminate.
  - destruct (negb (Nat.eqb (length (split arrow (strip line))) 2));
      [discriminate|].
    destruct (from_str (strip (nth 0 (split arrow (strip line)) [])));
      [|discriminate]. cbn [bind].
    destruct (from_str (strip (nth 1 (split arrow (strip line)) [])));
      [|discriminate]. cbn [bind].
    intros [= <-]. discriminate.
  - destruct (Nat.eqb (length (strip line)) 0).
    + destruct (Nat.eqb (length (Locals.text v)) 0); [discriminate|].
      destruct (Locals.number v); [|discriminate].
      destruct (Locals.start v); [|discriminate].
      destruct (Locals.end_ v); [|discriminate].
      intros [= <-]. reflexivity.
    + intros [= <-]. discriminate.
Qed.

Lemma parse_lines_idle (file : list str) :
  forall v v', idle_ok v -> parse_lines v file = Ok v' -> idle_ok v'.
Proof.
  induction file as [|l file IH]; intros v v' Hv; simpl.
  - now intros [= <-].
  - destruct (parse_line v l) as [v1|] eqn:E; [|discriminate]. cbn [bind].
    apply IH. now apply (parse_line_idle v v1 l).
Qed.

(** X15. Documents compose at a block boundary: when the lines [pre] are
    read without error and end where a number line is expected, [pre]
    alone parses into some records [rs1], and for every continuation
    [more] the result of [pre ++ more] is that of [more] with [rs1] put in
    front (or the error of [more]). *)
Theorem parse_srt_file_app (pre : list str) :
  expecting pre NEW_SUBTITLE ->
  exists rs1,
    parse_srt_file pre = Ok rs1
    /\ forall more,
        parse_srt_file (pre ++ more)
        = (rs2 <- parse_srt_file more;; Ok (rs1 ++ rs2)).
Proof.
  intros (v & E & S).
  assert (I : v = prepend (Locals.subtitles v) initial_locals).
  { pose proof (parse_lines_idle pre initial_locals v
                  (fun _ => eq_refl) E S) as I0.
    rewrite I0 at 1. unfold prepend, between_records. simpl.
    now rewrite app_nil_r. }
  exists (Locals.subtitles v). split.
  - unfold parse_srt_file. rewrite E. cbn [bind]. unfold parse_end.
    now rewrite S.
  - intros more. unfold parse_srt_file. rewrite parse_lines_app, E.
    cbn [bind]. rewrite I at 1. rewrite parse_lines_prepend.
    destruct (parse_lines initial_locals more) as [v'|]; cbn [bind];
      [|reflexivity].
    apply parse_end_prepend.
Qed.

Lemma parse_srt_file_app_witness :
  exists rs1,
    parse_srt_file (example_doc ++ [nl ""]) = Ok rs1
    /\ forall more,
        parse_srt_file ((example_doc ++ [nl ""]) ++ more)
        = (rs2 <- parse_srt_file more;; Ok (rs1 ++ rs2)).
Proof.
  apply parse_srt_file_app. eexists. split; vm_compute; reflexivity.
Defined.

(** X16. A blank line at the end never matters: when an input parses
    into records, the input followed by one more blank line parses into
    the same records. *)
Theorem parse_srt_file_final_blank (file : list str) (rs : list Subtitle)
  (blank : str) :
  parse_srt_file file = Ok rs -> strip blank = [] ->
  parse_srt_file (file ++ [blank]) = Ok rs.
Proof.
  unfold parse_srt_file. intros H B. rewrite parse_lines_app.
  destruct (parse_lines initial_locals file) as [v|]; [|discriminate].
  cbn [bind parse_lines] in *. unfold parse_end in H. unfold parse_line.
  rewrite B. cbn [length Nat.eqb].
  destruct (Locals.state v) eqn:S.
  - cbn [bind]. unfold parse_end. rewrite S. exact H.
  - discriminate.
  - destruct (Nat.eqb (length (Locals.text v)) 0); [discriminate|].
    destruct (Locals.number v); [|discriminate].
    destruct (Locals.start v); [|discriminate].
    destruct (Locals.end_ v); [|discriminate].
    cbn [bind]. exact H.
Qed.

Lemma parse_srt_file_final_blank_witness :
  parse_srt_file (example_doc ++ [nl "  "]) = Ok example_records.
Proof.
  apply parse_srt_file_final_blank; vm_compute; reflexivity.
Defined.

(** ** Timestamps of 24 hours and more in a written file *)

Lemma Timestamp_str_nonneg (t : Timestamp) :
  0 <= millis t ->
  Timestamp_str t <> [] /\ nospace (Timestamp_str t) = true
  /\ Forall (fun c => c <> "-"%char) (Timestamp_str t).
Proof.
  intros H.
  destruct (hms_any t) as (h & m & s & ms & E & Hm & Hs & Hms & V).
  assert (Hh : 0 <= h) by lia.
  rewrite (Timestamp_str_hms _ _ _ _ _ E).
  destruct (zfill_str_of_int 2 h Hh) as (Nh & Dh & _).
  destruct (field_ok_true 2 m) as (_ & Dm & _); [apply field_ok_2; lia|].
  destruct (field_ok_true 2 s) as (_ & Ds & _); [apply field_ok_2; lia|].
  destruct (field_ok_true 3 ms) as (_ & Dms & _); [apply field_ok_3; lia|].
  unfold timestamp_text. split; [|split].
  - destruct (zfill 2 (str_of_int h)); [congruence | discriminate].
  - rewrite !nospace_app, (nospace_digits _ Dh), (nospace_digits _ Dm),
      (nospace_digits _ Ds), (nospace_digits _ Dms). reflexivity.
  - apply digits_no_dash in Dh, Dm, Ds, Dms.
    repeat (apply Forall_app; split); auto; repeat constructor; discriminate.
Qed.

Lemma from_str_Timestamp_str_raises (t : Timestamp) :
  ~ time_ok t -> raises_ValueError (from_str (Timestamp_str t)).
Proof.
  intros N. destruct (from_str_cases (Timestamp_str t)) as [[t' H]|H];
    [|exact H].
  exfalso. apply N. rewrite <- (from_str_Timestamp_str_same t t' H).
  apply from_str_range in H. exact H.
Qed.

Lemma arrow_line_facts (a b : str) :
  a <> [] -> nospace a = true -> b <> [] -> nospace b = true ->
  no_newline (a ++ lit " --> " ++ b)
  /\ strip (with_newline (a ++ lit " --> " ++ b))
     = (a ++ lit " ") ++ arrow ++ (lit " " ++ b)
  /\ strip (a ++ lit " ") = a
  /\ strip (lit " " ++ b) = b.
Proof.
  intros Na Sa Nb Sb. split; [|split; [|split]].
  - destruct (nospace_no_newline _ Sa) as [A1 A2].
    destruct (nospace_no_newline _ Sb) as [B1 B2].
    split; intros Hin;
      apply in_app_or in Hin as [Hin|Hin]; try contradiction;
      apply in_app_or in Hin as [Hin|Hin]; try contradiction;
      simpl in Hin; repeat destruct Hin as [Hin|Hin]; try discriminate;
      contradiction.
  - unfold with_newline. rewrite strip_newline.
    + now rewrite <- app_assoc.
    + now apply clean_ends.
  - rewrite <- (strip_padded [] a (lit " ")) at 2;
      [reflexivity | now apply nospace_clean | reflexivity | reflexivity].
  - rewrite <- (strip_padded (lit " ") b []) at 2;
      [now rewrite app_nil_r | now apply nospace_clean
      | reflexivity | reflexivity].
Qed.

Lemma Forall_no_dash_space (a : str) :
  Forall (fun c => c <> "-"%char) a ->
  Forall (fun c => c <> "-"%char) (a ++ lit " ")
  /\ Forall (fun c => c <> "-"%char) (lit " " ++ a).
Proof.
  intros H. split.
  - apply Forall_app. split; [exact H|]. repeat constructor. discriminate.
  - constructor; [discriminate | exact H].
Qed.

Lemma parse_bad_timestamps_line (v : Locals.t) (r : Subtitle) :
  Locals.state v = TIMESTAMPS ->
  0 <= millis (start r) -> 0 <= millis (end_ r) ->
  ~ (time_ok (start r) /\ time_ok (end_ r)) ->
  raises_ValueError
    (parse_line v
       (with_newline (Timestamp_str (start r) ++ lit " --> "
                      ++ Timestamp_str (end_ r)))).
Proof.
  intros S Hs He N.
  destruct (Timestamp_str_nonneg (start r) Hs) as (Na & Sa & Da).
  destruct (Timestamp_str_nonneg (end_ r) He) as (Nb & Sb & Db).
  destruct (arrow_line_facts _ _ Na Sa Nb Sb) as (_ & E & Ea & Eb).
  destruct (Forall_no_dash_space _ Da) as [Da' _].
  destruct (Forall_no_dash_space _ Db) as [_ Db'].
  unfold parse_line. rewrite S, E, (split_two_timestamps _ _ Da' Db').
  cbn [length Nat.eqb negb nth]. rewrite Ea, Eb.
  destruct (from_str_cases (Timestamp_str (start r))) as [[t1 H1]|[args H1]].
  - rewrite H1. cbn [bind].
    destruct (from_str_Timestamp_str_raises (end_ r)) as [args H2].
    + intros Te. apply N. split; [|exact Te].
      rewrite <- (from_str_Timestamp_str_same _ _ H1).
      apply from_str_range in H1. exact H1.
    + rewrite H2. exists args. reflexivity.
  - rewrite H1. exists args. reflexivity.
Qed.

Lemma joined_records_cons (p : Subtitle) (rs : list Subtitle) :
  rs <> [] ->
  joined_records (p :: rs)
  = Subtitle_str p ++ ["010"%char] ++ joined_records rs.
Proof.
  unfold joined_records. destruct rs; [congruence | reflexivity].
Qed.

Lemma joined_records_before (pre : list Subtitle) (r : Subtitle)
  (post : list Subtitle) :
  Forall printable pre ->
  exists rest,
    joined_records (pre ++ r :: post)
    = concat (map with_newline
                (lines_before pre
                 ++ [str_of_int (number r);
                     Timestamp_str (start r) ++ lit " --> "
                     ++ Timestamp_str (end_ r)]))
      ++ rest.
Proof.
  induction 1 as [|p pre Hp _ (rest & IH)].
  - assert (S : Subtitle_str r
                = (with_newline (str_of_int (number r))
                   ++ with_newline (Timestamp_str (start r) ++ lit " --> "
                                    ++ Timestamp_str (end_ r)) ++ [])
                  ++ join ["010"%char] (text r) ++ ["010"%char]).
    { unfold Subtitle_str, with_newline. rewrite app_nil_r.
      now rewrite <- !app_assoc. }
    unfold joined_records. cbn [app map lines_before concat].
    destruct post as [|q post]; cbn [map join]; rewrite S;
      eexists; rewrite <- ?app_assoc; reflexivity.
  - exists rest. cbn [app]. rewrite joined_records_cons by now destruct pre.
    rewrite IH. destruct Hp as (_ & _ & _ & Ht & _).
    rewrite (Subtitle_str_lines p Ht). unfold lines_before. cbn [map concat].
    rewrite !map_app, !concat_app. cbn [map concat].
    unfold with_newline at 2. cbn [app]. rewrite app_nil_r.
    now rewrite <- !app_assoc.
Qed.

Lemma universal_newlines_app (a b : str) :
  ~ In "013"%char a ->
  universal_newlines (a ++ b) = a ++ universal_newlines b.
Proof.
  induction a as [|c a IH]; intros H; [reflexivity|]. cbn [app].
  cbn [universal_newlines].
  destruct (Ascii.eqb_spec c "013") as [->|_].
  - exfalso. apply H. now left.
  - f_equal. apply IH. intros Hin. apply H. now right.
Qed.

Lemma iter_lines_doc_app (ls : list str) (rest : str) :
  Forall (fun l => ~ In "010"%char l) ls ->
  iter_lines [] (concat (map with_newline ls) ++ rest)
  = map with_newline ls ++ iter_lines [] rest.
Proof.
  induction 1 as [|l ls Hl _ IH]; [reflexivity|].
  cbn [map concat]. unfold with_newline at 1. rewrite <- !app_assoc.
  cbn [app]. rewrite (iter_lines_line l Hl). cbn [rev app].
  now rewrite IH.
Qed.

Lemma readlines_doc_app (ls : list str) (rest : str) :
  Forall no_newline ls ->
  exists more,
    readlines (concat (map with_newline ls) ++ rest)
    = map with_newline ls ++ more.
Proof.
  intros H. unfold readlines. rewrite universal_newlines_app.
  - rewrite iter_lines_doc_app; [eauto|].
    eapply Forall_impl; [|exact H]. intros l [Hl _]. exact Hl.
  - intros Hin. apply in_concat in Hin as (x & Hx & Hc).
    apply in_map_iff in Hx as (l & <- & Hl).
    rewrite Forall_forall in H. destruct (H l Hl) as [_ Hcr].
    unfold with_newline in Hc. apply in_app_or in Hc as [Hc|[Hc|[]]].
    + contradiction.
    + discriminate.
Qed.

Lemma parse_lines_before (pre : list Subtitle) :
  Forall printable pre ->
  forall subs,
    parse_lines (between_records subs) (map with_newline (lines_before pre))
    = Ok (between_records (subs ++ pre))
    /\ Forall no_newline (lines_before pre).
Proof.
  induction 1 as [|p pre Hp _ IH]; intros subs.
  - split; [|constructor]. simpl. now rewrite app_nil_r.
  - destruct (printable_block p Hp) as [B NL].
    destruct (parse_block _ p subs B) as [E T].
    destruct (IH (subs ++ [p])) as [IH1 IH2].
    unfold lines_before in *. cbn [map concat]. split.
    + rewrite <- app_assoc, map_app, parse_lines_app, E. cbn [bind].
      cbn [app map parse_lines].
      rewrite (parse_blank_after_text subs _ _ _ _ (with_newline []));
        [|reflexivity|exact T].
      cbn [bind]. rewrite <- app_assoc in IH1. cbn [app] in IH1.
      destruct p. exact IH1.
    + rewrite <- app_assoc. apply Forall_app. split; [exact NL|].
      constructor; [split; intros []|exact IH2].
Qed.

Lemma read_joined_24h (pre : list Subtitle) (r : Subtitle)
  (post : list Subtitle) :
  Forall printable pre -> printable_unbounded r -> ~ printable r ->
  raises_ValueError
    (parse_srt_file (readlines (joined_records (pre ++ r :: post)))).
Proof.
  intros P (Hn & Hs & He & Ht & Hl) N.
  destruct (joined_records_before pre r post P) as (rest & ->).
  destruct (parse_lines_before pre P []) as [E NL].
  destruct (str_of_int_nonneg (number r) Hn) as (Nn & Dn & _).
  destruct (Timestamp_str_nonneg (start r) Hs) as (Na & Sa & _).
  destruct (Timestamp_str_nonneg (end_ r) He) as (Nb & Sb & _).
  destruct (arrow_line_facts _ _ Na Sa Nb Sb) as (NLt & _).
  destruct (readlines_doc_app
              (lines_before pre
               ++ [str_of_int (number r);
                   Timestamp_str (start r) ++ lit " --> "
                   ++ Timestamp_str (end_ r)]) rest) as (more & ->).
  { apply Forall_app. split; [exact NL|].
    constructor; [|constructor; [exact NLt | constructor]].
    apply nospace_no_newline. now apply nospace_digits. }
  assert (En : strip (with_newline (str_of_int (number r)))
               = str_of_int (number r)).
  { unfold with_newline. apply strip_newline.
    now apply nospace_clean, nospace_digits. }
  unfold parse_srt_file. rewrite map_app, <- app_assoc, parse_lines_app.
  change initial_locals with (between_records []). rewrite E.
  cbn [bind app map parse_lines].
  destruct (Z_lt_dec (number r) str_limit) as [Lt|Ge].
  - assert (T : ~ (time_ok (start r) /\ time_ok (end_ r))).
    { intros [Ts Te]. apply N. unfold printable. auto. }
    rewrite (parse_number_line (between_records pre)); [|reflexivity|..].
    + cbn [bind].
      match goal with
      | |- raises_ValueError (v <- (v' <- parse_line ?st ?l;; _);; _) =>
          destruct (parse_bad_timestamps_line st r eq_refl Hs He T)
            as [args ->]
      end.
      exists args. reflexivity.
    + now rewrite En.
    + now rewrite En.
    + rewrite En. now apply (str_of_int_length (number r) Hn).
  - rewrite (parse_long_number_line (between_records pre)); [|reflexivity|..].
    + cbn [bind]. unfold int_limit_error. eexists. reflexivity.
    + now rewrite En.
    + rewrite En.
      destruct (Z_le_dec (Z.of_nat (length (str_of_int (number r))))
                  max_str_digits) as [Le|Gt]; [|lia].
      apply (str_of_int_length (number r) Hn) in Le. lia.
Qed.

Lemma printable_dec (r : Subtitle) :
  printable_unbounded r -> printable r \/ ~ printable r.
Proof.
  intros (Hn & Hs & He & Ht & Hl). unfold printable, time_ok.
  destruct (Z_lt_dec (number r) str_limit);
    destruct (Z_le_dec (millis (start r)) 86399999);
    destruct (Z_le_dec (millis (end_ r)) 86399999);
    try (left; repeat split; (assumption || lia));
    right; intros ([? ?] & [? ?] & [? ?] & _); lia.
Qed.

Lemma first_unbounded (rs : list Subtitle) :
  Forall printable_unbounded rs ->
  Exists (fun r => ~ printable r) rs ->
  exists pre r post,
    rs = pre ++ r :: post /\ Forall printable pre
    /\ printable_unbounded r /\ ~ printable r.
Proof.
  induction 1 as [|r rs Hr Hrs IH]; intros E; [inversion E|].
  destruct (printable_dec r Hr) as [Pr|Bad].
  - inversion E as [? ? Bad|? ? Tail]; subst; [contradiction|].
    destruct (IH Tail) as (pre & x & post & -> & P & U & N).
    exists (r :: pre), x, post. split; [reflexivity|].
    split; [|auto]. now constructor.
  - exists [], r, rs. split; [reflexivity|]. split; [constructor|]. auto.
Qed.

Lemma in_delayed_from (d : Z) (sub : Subtitle) (l : list Subtitle) :
  In sub l ->
  forall j, exists i, In (delayed_record d i sub) (delayed_from d j l).
Proof.
  induction l as [|x l IH]; [intros []|]. intros [->|H] j.
  - exists j. now left.
  - destruct (IH H (S j)) as [i Hi]. exists i. now right.
Qed.

(** X17. A run can write a file that [parse_srt_file] rejects: when the
    input parses and some record that is kept gets a start or an end of
    24 hours or more, the run still writes its file, and parsing that file
    raises a ValueError. *)
Theorem main_delay_past_24h (filename content : str) (d : Z)
  (subs : list Subtitle) :
  parse_srt_file (readlines content) = Ok subs ->
  Exists (fun r => 0 <= millis (end_ r) + d
                   /\ (86400000 <= millis (start r) + d
                       \/ 86400000 <= millis (end_ r) + d)) subs ->
  exists out written,
    main_delay filename content d
    = (out, Ok (lit "delayed_" ++ filename, written))
    /\ raises_ValueError (parse_srt_file (readlines written)).
Proof.
  intros P E. rewrite (main_delay_value filename content d subs P).
  eexists. eexists. split; [reflexivity|].
  pose proof (parse_records_ok _ _ P) as R.
  pose proof (parse_inline _ _ (readlines_inline content) P) as N.
  destruct (first_unbounded (delayed_from d 0 (filter (survives d) subs)))
    as (pre & r & post & -> & Ppre & Un & Bad).
  - apply Forall_delayed_from. intros i sub Hin.
    apply filter_In in Hin as [Hin Hsv].
    unfold survives in Hsv. apply Z.leb_le in Hsv.
    rewrite Forall_forall in R, N.
    destruct (R sub Hin) as (Ht & Hl & _ & _).
    unfold printable_unbounded, delayed_record.
    cbn [number start end_ text millis].
    split; [lia|]. split; [lia|]. split; [lia|]. split; [exact Ht|].
    specialize (N sub Hin). unfold text_ok in Hl.
    rewrite Forall_forall in Hl, N. apply Forall_forall.
    intros l Hl'. destruct (Hl l Hl') as [A B]. split; [exact A|].
    split; [exact B | exact (N l Hl')].
  - apply Exists_exists in E as (sub & Hin & Hsv & Over).
    assert (K : In sub (filter (survives d) subs)).
    { apply filter_In. split; [exact Hin|]. unfold survives.
      now apply Z.leb_le. }
    destruct (in_delayed_from d sub _ K 0%nat) as [i Hi].
    apply Exists_exists. eexists. split; [exact Hi|].
    unfold printable, time_ok, delayed_record. cbn [start end_ millis]. lia.
  - now apply read_joined_24h.
Qed.

Lemma main_delay_past_24h_witness :
  exists out written,
    main_delay (lit "a.srt") (concat example_doc) 86400000
    = (out, Ok (lit "delayed_a.srt", written))
    /\ raises_ValueError (parse_srt_file (readlines written)).
Proof.
  apply (main_delay_past_24h (lit "a.srt") (concat example_doc) 86400000
           example_records).
  - vm_compute. reflexivity.
  - left. simpl. lia.
Defined.
